(** * socks.py: a SOCKS4 proxy — request decoder, reply encoder,
      connect/bind handlers, relay loop and listener loop.

    The Python module is embedded shallowly.  Pure code (the request
    decoder, [struct.pack]/[struct.unpack]) becomes Rocq functions over
    [list byte]; code that touches sockets becomes functions in a small
    state-and-exception monad over a table of socket objects.  What the
    network does (the outcome of a dial, what a read returns, which
    sockets [select] reports) is an explicit input of each function. *)

From Stdlib Require Import ZArith Lia DecimalString.
From Stdlib Require Import Strings.Byte.
From stdpp Require Import base list strings.

Local Open Scope Z_scope.

#[global] Instance byte_eq_decision : EqDecision byte := Byte.byte_eq_dec.

(** ** Module constants (socks.py, lines 8-28) *)

Definition HOST : string := "0.0.0.0".
Definition PORT : Z := 12345.
Definition BUFSIZE : Z := 4096.
Definition BACKLOG : Z := 10.
Definition CONNECT_TIMEOUT : Z := 20.
Definition VN : Z := 0x00.
Definition CLIENT_VN : Z := 0x04.
Definition REQUEST_TYPE_CONNECT : Z := 0x01.
Definition REQUEST_TYPE_BIND : Z := 0x02.
Definition CD_REQUEST_GRANTED : Z := 90.
Definition CD_REQUEST_REJECTED : Z := 91.

(** ** Exceptions and results *)

Inductive exn : Type :=
| KeyboardInterrupt
| SocketTimeout                 (* socket.timeout *)
| ConnectionRefusedError
| ConnectionResetError
| BrokenPipeError
| OSError (errno : Z)           (* an OSError with this errno, e.g. EBADF = 9 *)
| ValueError
| NameError (name : string)
| AttributeError (name : string)
| StructError                   (* struct.error *)
| AddressValueError.

(** [except Exception] catches everything here but [KeyboardInterrupt]. *)
Definition is_Exception (e : exn) : bool :=
  match e with KeyboardInterrupt => false | _ => true end.

(** Error numbers ([errno], Linux). *)
Definition ECONNRESET : Z := 104.
Definition ETIMEDOUT : Z := 110.

(** [except socket.timeout]: [socket.timeout] is [TimeoutError], which is
    also the class of an OSError whose errno is ETIMEDOUT. *)
Definition is_socket_timeout (e : exn) : bool :=
  match e with
  | SocketTimeout => true
  | OSError errno => errno =? ETIMEDOUT
  | _ => false
  end.

(** [except ConnectionResetError]: also the class of an OSError whose
    errno is ECONNRESET. *)
Definition is_ConnectionResetError (e : exn) : bool :=
  match e with
  | ConnectionResetError => true
  | OSError errno => errno =? ECONNRESET
  | _ => false
  end.

Definition is_KeyboardInterrupt (e : exn) : bool :=
  match e with KeyboardInterrupt => true | _ => false end.

Inductive result (A : Type) : Type :=
| Ok (a : A)
| Raise (e : exn).
Arguments Ok {A} a.
Arguments Raise {A} e.

(** ** Bytes and the [struct] format [>BBHL] *)

Module Struct.

Definition byte_val (b : byte) : Z := Z.of_N (Byte.to_N b).

(** The byte holding the low eight bits of [z]. *)
Definition low_byte (z : Z) : byte :=
  match Byte.of_N (Z.to_N (z mod 256)) with
  | Some b => b
  | None => x00
  end.

Definition fits (bits : Z) (z : Z) : bool := (0 <=? z) && (z <? 2 ^ bits).

(** [struct.pack('>BBHL', a, b, h, l)]: big-endian, no padding; a value
    outside its field's range raises [struct.error]. *)
Definition pack_BBHL (a b h l : Z) : result (list byte) :=
  if fits 8 a && fits 8 b && fits 16 h && fits 32 l then
    Ok [ low_byte a; low_byte b;
         low_byte (Z.shiftr h 8); low_byte h;
         low_byte (Z.shiftr l 24); low_byte (Z.shiftr l 16);
         low_byte (Z.shiftr l 8); low_byte l ]
  else Raise StructError.

(** [struct.unpack('>BBHL', data)]: needs exactly eight bytes. *)
Definition unpack_BBHL (data : list byte) : result (Z * Z * Z * Z) :=
  match data with
  | [a; b; h1; h0; l3; l2; l1; l0] =>
      Ok (byte_val a, byte_val b,
          Z.lor (Z.shiftl (byte_val h1) 8) (byte_val h0),
          Z.lor (Z.shiftl (byte_val l3) 24)
            (Z.lor (Z.shiftl (byte_val l2) 16)
               (Z.lor (Z.shiftl (byte_val l1) 8) (byte_val l0))))
  | _ => Raise StructError
  end.

End Struct.

(** ** Python slices and [ipaddress.IPv4Address(n).exploded] *)

(** [data[start:stop]] for [start >= 0]; a negative [stop] counts from the
    end, and an empty range gives the empty sequence. *)
Definition py_slice {A} (start : nat) (stop : Z) (data : list A) : list A :=
  let n := Z.of_nat (length data) in
  let stop' := if stop <? 0 then Z.max 0 (n + stop) else Z.min stop n in
  take (Z.to_nat stop' - start)%nat (drop start data).

Definition decimal (z : Z) : string :=
  NilZero.string_of_uint (N.to_uint (Z.to_N z)).

Definition IPv4Address_exploded (n : Z) : result string :=
  if Struct.fits 32 n then
    Ok (decimal (Z.land (Z.shiftr n 24) 255) +:+ "." +:+
        decimal (Z.land (Z.shiftr n 16) 255) +:+ "." +:+
        decimal (Z.land (Z.shiftr n 8) 255) +:+ "." +:+
        decimal (Z.land n 255))
  else Raise AddressValueError.

(** ** ClientRequest (socks.py, lines 30-62) *)

(** An attribute that [__init__] has not assigned is [None]. *)
Record ClientRequest : Type := mkClientRequest {
  invalid : bool;
  cd : option Z;
  dst_port : option Z;
  dst_ip : option string;
  userid : option (list byte)
}.

Definition set_invalid (v : bool) (self : ClientRequest) : ClientRequest :=
  mkClientRequest v (cd self) (dst_port self) (dst_ip self) (userid self).
Definition set_cd (v : Z) (self : ClientRequest) : ClientRequest :=
  mkClientRequest (invalid self) (Some v) (dst_port self) (dst_ip self) (userid self).
Definition set_dst_port (v : Z) (self : ClientRequest) : ClientRequest :=
  mkClientRequest (invalid self) (cd self) (Some v) (dst_ip self) (userid self).
Definition set_dst_ip (v : string) (self : ClientRequest) : ClientRequest :=
  mkClientRequest (invalid self) (cd self) (dst_port self) (Some v) (userid self).
Definition set_userid (v : list byte) (self : ClientRequest) : ClientRequest :=
  mkClientRequest (invalid self) (cd self) (dst_port self) (dst_ip self) (Some v).

Definition ClientRequest_init (data : list byte) : result ClientRequest :=
  let self := mkClientRequest false None None None None in
  if (length data <? 9)%nat then Ok (set_invalid true self)
  else
    match Struct.unpack_BBHL (py_slice 0 8 data) with
    | Raise e => Raise e
    | Ok (vn, c, port, ip) =>
        let self := if negb (vn =? CLIENT_VN) then set_invalid true self else self in
        let self := set_cd c self in
        let self :=
          if negb (c =? REQUEST_TYPE_CONNECT) && negb (c =? REQUEST_TYPE_BIND)
          then set_invalid true self else self in
        let self := set_dst_port port self in
        match IPv4Address_exploded ip with
        | Raise e => Raise e
        | Ok quad =>
            let self := set_dst_ip quad self in
            Ok (set_userid (py_slice 8 (-1) data) self)
        end
    end.

Definition isInvalid (self : ClientRequest) : bool := invalid self.

(** ** Sockets, the trace of calls, and the monad of effects *)

(** A socket object.  [closed] is set by [close()]; [peer_gone] is the
    network's state (writes to such a socket raise [BrokenPipeError]);
    [outbox] holds, oldest first, the buffers written to the socket. *)
Record sock : Type := mkSock {
  closed : bool;
  peer_gone : bool;
  outbox : list (list byte)
}.

(** Calls made on sockets and on the process, with their outcome. *)
Inductive event : Type :=
| EvPrint (text : string)
| EvPrintExn (e : exn)
| EvSocket (fd : nat)
| EvListen (fd : nat) (host : string) (port backlog : Z)
| EvAccept (r : result nat)
| EvSetTimeout (fd : nat) (secs : Z)
| EvConnect (fd : nat) (ip : string) (port : Z) (r : option exn)
| EvSend (fd : nat) (data : list byte) (r : option exn)
| EvRecv (fd : nat) (r : result (list byte))
| EvSelect (ready err : list nat)
| EvClose (fd : nat)
| EvThread (src dest : nat)
| EvExit (code : Z).

(** The sockets are Python objects shared by every holder of a reference:
    they live in one table, and a socket is named by its index there. *)
Record world : Type := mkWorld {
  socks : list sock;
  trace : list event
}.

Definition M (A : Type) : Type := world → result A * world.

#[global] Instance M_ret : MRet M := λ A a w, (Ok a, w).
#[global] Instance M_bind : MBind M := λ A B f m w,
  match m w with
  | (Ok a, w') => f a w'
  | (Raise e, w') => (Raise e, w')
  end.

Definition raise {A} (e : exn) : M A := λ w, (Raise e, w).

(** [try: body  except <handles>: handler] *)
Definition try_except {A} (body : M A) (handles : exn → bool) (handler : M A) : M A :=
  λ w, match body w with
       | (Ok a, w') => (Ok a, w')
       | (Raise e, w') => if handles e then handler w' else (Raise e, w')
       end.

Definition log (e : event) : M unit :=
  λ w, (Ok tt, mkWorld (socks w) (trace w ++ [e])).

Definition EBADF : Z := 9.

Definition get_sock (fd : nat) : M sock :=
  λ w, match socks w !! fd with
       | Some s => (Ok s, w)
       | None => (Raise (OSError EBADF), w)
       end.

Definition put_sock (fd : nat) (s : sock) : M unit :=
  λ w, (Ok tt, mkWorld (<[fd := s]> (socks w)) (trace w)).

(** [getattr]: reading an attribute that was never assigned. *)
Definition attr {A} (name : string) (o : option A) : M A :=
  match o with Some a => mret a | None => raise (AttributeError name) end.

Definition lift {A} (r : result A) : M A :=
  match r with Ok a => mret a | Raise e => raise e end.

(** [socket.socket(AF_INET, SOCK_STREAM)] *)
Definition socket_new : M nat :=
  λ w, let fd := length (socks w) in
       (Ok fd, mkWorld (socks w ++ [mkSock false false []]) (trace w ++ [EvSocket fd])).

Definition settimeout (fd : nat) (secs : Z) : M unit := log (EvSetTimeout fd secs).

(** [sock.connect((ip, port))]; [dial] is what the network answers. *)
Definition connect (fd : nat) (ip : string) (port : Z) (dial : option exn) : M unit :=
  s ← get_sock fd;
  if closed s then raise (OSError EBADF)
  else
    log (EvConnect fd ip port dial);;
    match dial with None => mret tt | Some e => raise e end.

(** [sock.sendall(data)]: the whole buffer or an exception.  A closed
    socket object has lost its descriptor: the call raises OSError
    (EBADF). *)
Definition sendall (fd : nat) (data : list byte) : M unit :=
  s ← get_sock fd;
  if closed s then log (EvSend fd data (Some (OSError EBADF)));; raise (OSError EBADF)
  else if peer_gone s then log (EvSend fd data (Some BrokenPipeError));; raise BrokenPipeError
  else
    put_sock fd (mkSock (closed s) (peer_gone s) (outbox s ++ [data]));;
    log (EvSend fd data None).

(** [sock.send(data)]: the callers discard the byte count; the kernel is
    taken to accept the whole (eight-byte) buffer. *)
Definition send (fd : nat) (data : list byte) : M unit := sendall fd data.

(** [sock.recv(bufsize)]; [r] is what the network delivers, at most
    [bufsize] bytes, the empty buffer at end of stream. *)
Definition recv (fd : nat) (bufsize : Z) (r : result (list byte)) : M (list byte) :=
  s ← get_sock fd;
  if closed s then raise (OSError EBADF)
  else log (EvRecv fd r);; lift r.

(** [sock.close()]: closing a closed socket is allowed. *)
Definition close (fd : nat) : M unit :=
  s ← get_sock fd;
  put_sock fd (mkSock true (peer_gone s) (outbox s));;
  log (EvClose fd).

(** [threading.Thread(target=..., args=(src, dest))], [daemon = True],
    [start()]: the new thread runs on its own; here it is recorded. *)
Definition thread_start (src dest : nat) : M unit := log (EvThread src dest).

(** ** Name resolution inside a method body *)

(** Names bound at module level when the file runs as a script. *)
Definition module_globals : list string :=
  [ "__name__"; "__doc__"; "__package__"; "__loader__"; "__spec__";
    "__file__"; "__builtins__";
    "socket"; "threading"; "select"; "sys"; "struct"; "ipaddress";
    "HOST"; "PORT"; "BUFSIZE"; "BACKLOG"; "CONNECT_TIMEOUT"; "VN";
    "CLIENT_VN"; "REQUEST_TYPE_CONNECT"; "REQUEST_TYPE_BIND";
    "CD_REQUEST_GRANTED"; "CD_REQUEST_REJECTED";
    "ClientRequest"; "SocksProxy"; "proxy" ]%string.

(** The functions of the [builtins] module. *)
Definition builtin_functions : list string :=
  [ "abs"; "aiter"; "all"; "anext"; "any"; "ascii"; "bin"; "bool";
    "breakpoint"; "bytearray"; "bytes"; "callable"; "chr"; "classmethod";
    "compile"; "complex"; "delattr"; "dict"; "dir"; "divmod"; "enumerate";
    "eval"; "exec"; "filter"; "float"; "format"; "frozenset"; "getattr";
    "globals"; "hasattr"; "hash"; "help"; "hex"; "id"; "input"; "int";
    "isinstance"; "issubclass"; "iter"; "len"; "list"; "locals"; "map";
    "max"; "memoryview"; "min"; "next"; "object"; "oct"; "open"; "ord";
    "pow"; "print"; "property"; "range"; "repr"; "reversed"; "round";
    "set"; "setattr"; "slice"; "sorted"; "staticmethod"; "str"; "sum";
    "super"; "tuple"; "type"; "vars"; "zip"; "__import__" ]%string.

(** A bare name in a method body is looked up among the function's
    locals, then the module's globals, then the builtins; the attributes
    of the enclosing class are not in scope.  [callee] is what runs when
    the name is bound. *)
Definition call_bare_name {A} (locals : list string) (name : string) (callee : M A) : M A :=
  if bool_decide (name ∈ locals ++ module_globals ++ builtin_functions)
  then callee
  else raise (NameError name).

(** ** SocksProxy (socks.py, lines 64-165) *)

(** [_build_reply(self, cd, dst_port=0x0000, dst_ip=0x000000)]; an
    omitted argument is [None] and takes its default. *)
Definition _build_reply (c : Z) (dst_port dst_ip : option Z) : M (list byte) :=
  lift (Struct.pack_BBHL VN c (default 0x0000 dst_port) (default 0x000000 dst_ip)).

Definition _process_connect_request (dial : option exn)
    (clientRequest : ClientRequest) (clientConn : nat) : M unit :=
  serverConn ← socket_new;
  settimeout serverConn CONNECT_TIMEOUT;;
  try_except
    (ip ← attr "dst_ip" (dst_ip clientRequest);
     port ← attr "dst_port" (dst_port clientRequest);
     connect serverConn ip port dial)
    is_socket_timeout
    (close serverConn;;
     reply ← _build_reply CD_REQUEST_REJECTED None None;
     send clientConn reply;;
     close clientConn);;
  reply ← _build_reply CD_REQUEST_GRANTED None None;
  send clientConn reply;;
  thread_start clientConn serverConn.

Definition _process_bind_request (clientRequest : ClientRequest) (clientConn : nat) : M unit :=
  reply ← _build_reply CD_REQUEST_REJECTED None None;
  send clientConn reply;;
  close clientConn.

Definition _process_request (dial : option exn) (data : list byte) (clientConn : nat) : M unit :=
  clientRequest ← lift (ClientRequest_init data);
  if isInvalid clientRequest then
    reply ← _build_reply CD_REQUEST_REJECTED None None;
    send clientConn reply;;
    close clientConn
  else
    c ← attr "cd" (cd clientRequest);
    if c =? REQUEST_TYPE_CONNECT
    then _process_connect_request dial clientRequest clientConn
    else _process_bind_request clientRequest clientConn.

Fixpoint _close_all (socks : list nat) : M unit :=
  match socks with
  | [] => mret tt
  | s :: rest => close s;; _close_all rest
  end.

(** One return of [select.select([src, dest], [], [src, dest])]: the
    sockets reported readable, each with what its [recv] will deliver,
    and the sockets reported in error. *)
Record select_result : Type := mkSelect {
  ready : list (nat * result (list byte));
  err : list nat
}.

(** [select] refuses a closed socket (its descriptor is -1). *)
Definition select (src dest : nat) : M unit :=
  a ← get_sock src;
  b ← get_sock dest;
  if closed a || closed b then raise ValueError else mret tt.

Definition forward_locals : list string :=
  [ "self"; "src"; "dest"; "ready"; "_"; "err"; "s"; "data" ]%string.

(** The statement [_close_all([src, dest])] of [_forward_connection]: the
    name is written bare, without [self.]. *)
Definition call_close_all (src dest : nat) : M unit :=
  call_bare_name forward_locals "_close_all" (_close_all [src; dest]).

(** How the body of a loop ends: by falling through to the next round or
    by [return]. *)
Inductive flow : Type := Continue | Returned.

(** [for s in ready: ...] (lines 149-165) *)
Fixpoint for_ready (src dest : nat) (rd : list (nat * result (list byte))) : M flow :=
  match rd with
  | [] => mret Continue
  | (s, r) :: rest =>
      got ← try_except
               (data ← recv s BUFSIZE r; mret (Some data))
               is_ConnectionResetError
               (call_close_all src dest;; mret None);
      match got with
      | None => mret Returned
      | Some data =>
          if bool_decide (data = []) then
            call_close_all src dest;; mret Returned
          else
            (if bool_decide (s = src) then sendall dest data else sendall src data);;
            for_ready src dest rest
      end
  end.

(** How a run of the relay ends on a finite stretch of network activity:
    the function returned, or it is blocked in [select]. *)
Inductive relay_end : Type := RelayReturned | RelayWaiting.

(** [while True: ...] (lines 140-165); [net] lists what [select] returns,
    call after call. *)
Fixpoint _forward_connection (net : list select_result) (src dest : nat) : M relay_end :=
  match net with
  | [] => select src dest;; mret RelayWaiting
  | round :: later =>
      select src dest;;
      log (EvSelect (ready round).*1 (err round));;
      if negb (bool_decide (err round = [])) then
        call_close_all src dest;; mret RelayReturned
      else
        f ← for_ready src dest (ready round);
        match f with
        | Returned => mret RelayReturned
        | Continue => _forward_connection later src dest
        end
  end.

(** *** The listener (lines 66-94) *)

Record SocksProxy : Type := mkSocksProxy {
  _host : string;
  _port : Z;
  _bufsize : Z;
  _backlog : Z
}.

(** What the network does with one inbound connection: whether [accept]
    raises, whether the client has gone away by the time it is written
    to, what the first [recv] delivers, and how the dial of a CONNECT
    request ends. *)
Record connection : Type := mkConnection {
  accept_raises : option exn;
  client_gone : bool;
  first_read : result (list byte);
  dial : option exn
}.

(** [s.accept()] *)
Definition accept (s : nat) (c : connection) : M nat :=
  l ← get_sock s;
  if closed l then raise (OSError EBADF)
  else
    match accept_raises c with
    | Some e => log (EvAccept (Raise e));; raise e
    | None =>
        λ w, let fd := length (socks w) in
             (Ok fd, mkWorld (socks w ++ [mkSock false (client_gone c) []])
                             (trace w ++ [EvAccept (Ok fd)]))
    end.

Inductive listener_end : Type := Exited (code : Z) | Accepting.

(** The body of the [try] (lines 82-86). *)
Definition handle_connection (self : SocksProxy) (s : nat) (c : connection) : M unit :=
  conn ← accept s c;
  data ← recv conn (_bufsize self) (first_read c);
  _process_request (dial c) data conn.

(** One round of [while True: try: ... except ...] (lines 81-94);
    [None] means the loop goes round again. *)
Definition serve_one (self : SocksProxy) (s : nat) (c : connection) : M (option listener_end) :=
  λ w, match handle_connection self s c w with
       | (Ok _, w') => (Ok None, w')
       | (Raise e, w') =>
           if is_KeyboardInterrupt e then
             (close s;;
              log (EvPrint "Caught KeyboardInterrupt, exiting");;
              log (EvExit 0);;
              mret (Some (Exited 0))) w'
           else if is_Exception e then
             (log (EvPrintExn e);;
              close s;;
              log (EvExit 1);;
              mret (Some (Exited 1))) w'
           else (Raise e, w')
       end.

Fixpoint accept_loop (self : SocksProxy) (s : nat) (net : list connection) : M listener_end :=
  match net with
  | [] => mret Accepting
  | c :: later =>
      r ← serve_one self s c;
      match r with
      | Some e => mret e
      | None => accept_loop self s later
      end
  end.

(** [start(self)]; [net] lists the inbound connections in arrival order. *)
Definition start (self : SocksProxy) (net : list connection) : M listener_end :=
  log (EvPrint ("Listening on " +:+ _host self +:+ ":" +:+ decimal (_port self)));;
  s ← socket_new;
  log (EvListen s (_host self) (_port self) (_backlog self));;
  accept_loop self s net.

Definition proxy : SocksProxy := mkSocksProxy HOST PORT BUFSIZE BACKLOG.

Definition empty_world : world := mkWorld [] [].

(** ** Observations on a world *)

Definition is_closed (w : world) (fd : nat) : bool :=
  match socks w !! fd with Some s => closed s | None => false end.

Definition is_open (w : world) (fd : nat) : bool :=
  match socks w !! fd with Some s => negb (closed s) | None => false end.

(** Open, and the peer still reads what is written. *)
Definition writable (w : world) (fd : nat) : bool :=
  match socks w !! fd with
  | Some s => negb (closed s) && negb (peer_gone s)
  | None => false
  end.

(** The buffers delivered to socket [fd], oldest first. *)
Definition delivered (w : world) (fd : nat) : list (list byte) :=
  match socks w !! fd with Some s => outbox s | None => [] end.

(** The buffers the program passed to [send]/[sendall] on [fd], whether
    or not the call succeeded. *)
Fixpoint send_calls (fd : nat) (t : list event) : list (list byte) :=
  match t with
  | [] => []
  | EvSend fd' data _ :: t' =>
      if bool_decide (fd' = fd) then data :: send_calls fd t' else send_calls fd t'
  | _ :: t' => send_calls fd t'
  end.

(** The non-empty buffers read from [fd], in the order they were read. *)
Fixpoint data_read (fd : nat) (t : list event) : list (list byte) :=
  match t with
  | [] => []
  | EvRecv fd' (Ok data) :: t' =>
      if bool_decide (fd' = fd) && negb (bool_decide (data = []))
      then data :: data_read fd t' else data_read fd t'
  | _ :: t' => data_read fd t'
  end.

Definition threads (t : list event) : list (nat * nat) :=
  omap (λ e, match e with EvThread a b => Some (a, b) | _ => None end) t.

Definition sockets_created (t : list event) : list nat :=
  omap (λ e, match e with EvSocket fd => Some fd | _ => None end) t.

(** The connections [accept] has returned. *)
Definition accepted (t : list event) : list nat :=
  omap (λ e, match e with EvAccept (Ok fd) => Some fd | _ => None end) t.

(** ** Notions used in the statements *)

(** What [__init__] assigns on a buffer of nine bytes or more. *)
Definition decoded (b0 b1 p1 p0 a3 a2 a1 a0 : byte) (tail : list byte) : ClientRequest :=
  let port := Z.lor (Z.shiftl (Struct.byte_val p1) 8) (Struct.byte_val p0) in
  let ip := Z.lor (Z.shiftl (Struct.byte_val a3) 24)
              (Z.lor (Z.shiftl (Struct.byte_val a2) 16)
                 (Z.lor (Z.shiftl (Struct.byte_val a1) 8) (Struct.byte_val a0))) in
  mkClientRequest
    (negb (Struct.byte_val b0 =? CLIENT_VN)
     || (negb (Struct.byte_val b1 =? REQUEST_TYPE_CONNECT)
         && negb (Struct.byte_val b1 =? REQUEST_TYPE_BIND)))
    (Some (Struct.byte_val b1))
    (Some port)
    (Some (decimal (Z.land (Z.shiftr ip 24) 255) +:+ "." +:+
           decimal (Z.land (Z.shiftr ip 16) 255) +:+ "." +:+
           decimal (Z.land (Z.shiftr ip 8) 255) +:+ "." +:+
           decimal (Z.land ip 255)))
    (Some (take (length tail - 1) tail)).

Definition REJECTED_reply : list byte := [x00; x5b; x00; x00; x00; x00; x00; x00].
Definition GRANTED_reply_zero : list byte := [x00; x5a; x00; x00; x00; x00; x00; x00].

(** The statements that reject a request, as they stand at lines
    108-109, 119-120 and 127-128: build the REJECTED reply, send it,
    close the client connection. *)
Definition reject_and_close (clientConn : nat) : M unit :=
  reply ← _build_reply CD_REQUEST_REJECTED None None;
  send clientConn reply;;
  close clientConn.

Definition fresh_sock : sock := mkSock false false [].

(** The world when the dial has been answered. *)
Definition dialled (w : world) (ip : string) (port : Z) (dial : option exn) : world :=
  let n := length (socks w) in
  mkWorld (socks w ++ [fresh_sock])
          (trace w ++ [EvSocket n; EvSetTimeout n CONNECT_TIMEOUT; EvConnect n ip port dial]).

(** A well-formed request with the given command byte. *)
Definition valid_request (command : byte) (data : list byte) : Prop :=
  (9 ≤ length data)%nat ∧ data !! 0%nat = Some x04 ∧ data !! 1%nat = Some command.

(** The requests of the scenarios, and a world holding one accepted
    client connection, socket 0. *)
Definition scenario1_request : list byte := [x04; x01; x1f; x90; x7f; x00; x00; x01; x00].
Definition scenario2_request : list byte := [x04; x01; x1f; x90; x00; x00; x00; x00; x00].
Definition scenario4_request : list byte := [x04; x02; x1f; x90; x7f; x00; x00; x01; x00].
Definition one_client : world := mkWorld [fresh_sock] [].

(** The reading of C3: the reply delivered to the client is GRANTED and
    carries bytes 2-7 of the request (destination port and address). *)
Definition granted_reply_echoes_destination (data : list byte) (w w' : world)
    (clientConn : nat) : Prop :=
  ∃ reply, delivered w' clientConn = delivered w clientConn ++ [reply] ∧
    length reply = 8%nat ∧
    take 2 reply = [x00; x5a] ∧
    drop 2 reply = take 6 (drop 2 data).

(** Computations that leave the [closed] flag of every socket alone. *)
Definition keeps_flags {A} (m : M A) : Prop :=
  ∀ w fd, is_closed (m w).2 fd = is_closed w fd.

(** Two connected sockets: the client is socket 0, the destination
    socket 1. *)
Definition relay_pair : world := mkWorld [fresh_sock; fresh_sock] [].

(** A session of four rounds: a request and its answer, more of the
    answer, the end of the destination's stream, and a last buffer from
    the client. *)
Definition short_session : list select_result :=
  [ mkSelect [(0%nat, Ok [x47; x45; x54]); (1%nat, Ok [x32; x30; x30])] [];
    mkSelect [(1%nat, Ok [x4f; x4b])] [];
    mkSelect [(1%nat, Ok [])] [];
    mkSelect [(0%nat, Ok [x58])] [] ].

(** [select] reports only sockets it was given. *)
Definition reports_pair (src dest : nat) (round : select_result) : Prop :=
  Forall (λ p, p.1 = src ∨ p.1 = dest) (ready round).

(** Computations that never remove a socket from the table. *)
Definition grows {A} (m : M A) : Prop :=
  ∀ w, (length (socks w) ≤ length (socks (m w).2))%nat.

(** The reading of C5: every connection the network offers is served and
    the listener is back in [accept]. *)
Definition listener_keeps_accepting (self : SocksProxy) (net : list connection) : Prop :=
  ∃ w', start self net empty_world = (Ok Accepting, w') ∧
    length (accepted (trace w')) = length net.

(** Two clients: a CONNECT whose dial is refused, then a BIND. *)
Definition refused_then_bind : list connection :=
  [ mkConnection None false (Ok scenario1_request) (Some ConnectionRefusedError);
    mkConnection None false (Ok scenario4_request) None ].

(** Computations that leave every existing socket outside [P] exactly as
    it was: open or closed, and with the same buffers delivered. *)
Definition untouched (P : nat → Prop) {A} (m : M A) : Prop :=
  ∀ w fd, (fd < length (socks w))%nat → ¬ P fd → socks (m w).2 !! fd = socks w !! fd.

(** A buffer the decoder flags invalid. *)
Definition malformed (data : list byte) : Prop :=
  (length data < 9)%nat
  ∨ data !! 0%nat ≠ Some x04
  ∨ (data !! 1%nat ≠ Some x01 ∧ data !! 1%nat ≠ Some x02).

(** The buffers the network offers on socket [fd] during one round, and
    during a stretch of rounds, in order. *)
Definition offered_in (fd : nat) (rd : list (nat * result (list byte))) : list (list byte) :=
  omap (λ p, if bool_decide (p.1 = fd)
             then match p.2 with Ok data => Some data | Raise _ => None end
             else None) rd.

Definition offered (fd : nat) (net : list select_result) : list (list byte) :=
  concat ((λ round, offered_in fd (ready round)) <$> net).

(** A round in which no socket is in error and every reported socket is
    one of the pair and delivers a non-empty buffer. *)
Definition flowing (src dest : nat) (round : select_result) : Prop :=
  err round = [] ∧
  Forall (λ p, (p.1 = src ∨ p.1 = dest) ∧ ∃ data, p.2 = Ok data ∧ data ≠ [])
         (ready round).

(** A read that ends the relay loop: an end of stream or an exception. *)
Definition stops (r : result (list byte)) : bool :=
  match r with
  | Ok [] => true
  | Ok _ => false
  | Raise _ => true
  end.

(** The reads of one round that come before the first read that ends the
    loop, and whether the round holds such a read. *)
Fixpoint read_until_stop (rd : list (nat * result (list byte)))
    : list (nat * result (list byte)) * bool :=
  match rd with
  | [] => ([], false)
  | p :: rest =>
      if stops p.2 then ([], true)
      else let '(l, stopped) := read_until_stop rest in (p :: l, stopped)
  end.

(** What the network offers to a relay before anything ends its loop:
    the reads, round by round, up to the first round that reports a
    socket in error or the first read that ends the loop. *)
Fixpoint offered_before_stop (net : list select_result) : list (nat * result (list byte)) :=
  match net with
  | [] => []
  | round :: later =>
      if bool_decide (err round = []) then
        let '(l, stopped) := read_until_stop (ready round) in
        if stopped then l else l ++ offered_before_stop later
      else []
  end.

(** Between [w] and [w'] the relay has read the buffers of [l] and
    passed each one on: the buffers read from either socket, and the
    buffers delivered to the other, are those [l] holds for it, in
    order; both sockets can still be written to. *)
Definition relayed (src dest : nat) (l : list (nat * result (list byte)))
    (w w' : world) : Prop :=
  ∃ t, trace w' = trace w ++ t ∧
    data_read src t = offered_in src l ∧
    data_read dest t = offered_in dest l ∧
    delivered w' dest = delivered w dest ++ offered_in src l ∧
    delivered w' src = delivered w src ++ offered_in dest l ∧
    writable w' src = true ∧ writable w' dest = true.

(** A client whose round raises nothing: [accept] succeeds, the first
    read delivers a buffer, the peer accepts writes, and the dial, if
    the buffer is a valid CONNECT, succeeds. *)
Definition quiet (c : connection) : Prop :=
  accept_raises c = None ∧ client_gone c = false ∧
  ∃ data, first_read c = Ok data ∧ (valid_request x01 data → dial c = None).

(** The world in which the request of an accepted client is handled. *)
Definition arrived (w : world) (gone : bool) (data : list byte) : world :=
  mkWorld (socks w ++ [mkSock false gone []])
          (trace w ++ [EvAccept (Ok (length (socks w)));
                       EvRecv (length (socks w)) (Ok data)]).

(** * Properties *)

(** ** Bytes and [>BBHL] *)

Section StructFacts.
Import Struct.

Lemma byte_val_range (b : byte) : 0 ≤ byte_val b < 256.
Proof.
  unfold byte_val. pose proof (Byte.to_N_bounded b). lia.
Qed.

Lemma byte_val_inj (a b : byte) : byte_val a = byte_val b → a = b.
Proof.
  unfold byte_val. intros H. apply N2Z.inj in H.
  assert (E : Byte.of_N (Byte.to_N a) = Byte.of_N (Byte.to_N b)) by (by rewrite H).
  rewrite !Byte.of_to_N in E. congruence.
Qed.

Lemma byte_val_low_byte (z : Z) : byte_val (low_byte z) = z mod 256.
Proof.
  unfold byte_val, low_byte.
  pose proof (Z.mod_pos_bound z 256 ltac:(lia)) as Hm.
  destruct (Byte.of_N (Z.to_N (z mod 256))) as [b|] eqn:E.
  - apply Byte.to_of_N in E. rewrite E. lia.
  - apply Byte.of_N_None_iff in E. lia.
Qed.

Lemma lor_below (n a b : Z) :
  0 ≤ n → 0 ≤ a < 2 ^ n → 0 ≤ b < 2 ^ n → 0 ≤ Z.lor a b < 2 ^ n.
Proof.
  intros Hn Ha Hb. split; [apply Z.lor_nonneg; lia|].
  destruct (Z.eq_dec (Z.lor a b) 0) as [E|E]; [rewrite E; lia|].
  assert (0 < Z.lor a b) by (pose proof (proj2 (Z.lor_nonneg a b)); lia).
  assert (Hpos : 0 < n).
  { destruct (Z.eq_dec n 0) as [->|]; [|lia].
    assert (a = 0) as -> by (change (2 ^ 0) with 1 in Ha; lia).
    assert (b = 0) as -> by (change (2 ^ 0) with 1 in Hb; lia).
    done. }
  assert (Hlog : ∀ x, 0 ≤ x < 2 ^ n → Z.log2 x < n).
  { intros x Hx. destruct (Z.eq_dec x 0) as [->|]; [done|].
    apply Z.log2_lt_pow2; lia. }
  apply Z.log2_lt_pow2; [done|].
  rewrite Z.log2_lor by lia.
  apply Z.max_lub_lt; by apply Hlog.
Qed.

Lemma word16_below (h1 h0 : byte) :
  0 ≤ Z.lor (Z.shiftl (byte_val h1) 8) (byte_val h0) < 2 ^ 16.
Proof.
  pose proof (byte_val_range h1). pose proof (byte_val_range h0).
  apply lor_below; [lia | rewrite Z.shiftl_mul_pow2 by lia; lia | lia].
Qed.

Lemma word32_below (l3 l2 l1 l0 : byte) :
  0 ≤ Z.lor (Z.shiftl (byte_val l3) 24)
        (Z.lor (Z.shiftl (byte_val l2) 16)
           (Z.lor (Z.shiftl (byte_val l1) 8) (byte_val l0))) < 2 ^ 32.
Proof.
  pose proof (byte_val_range l3). pose proof (byte_val_range l2).
  pose proof (byte_val_range l1). pose proof (byte_val_range l0).
  repeat apply lor_below; rewrite ?Z.shiftl_mul_pow2 by lia; lia.
Qed.

Lemma fits_true (bits z : Z) : 0 ≤ z < 2 ^ bits → fits bits z = true.
Proof. unfold fits. intros. apply andb_true_iff. split; [apply Z.leb_le | apply Z.ltb_lt]; lia. Qed.

(** Reassembling a value below [2^16] from its two bytes. *)
Lemma join16 (h : Z) :
  0 ≤ h < 2 ^ 16 →
  Z.lor (Z.shiftl (Z.shiftr h 8 mod 256) 8) (h mod 256) = h.
Proof.
  intros Hh. apply Z.bits_inj'. intros n Hn.
  change 256 with (2 ^ 8).
  rewrite Z.lor_spec, Z.shiftl_spec by lia.
  destruct (Z.lt_ge_cases n 8).
  - rewrite (Z.testbit_neg_r _ (n - 8)) by lia.
    rewrite Z.mod_pow2_bits_low by lia. done.
  - rewrite (Z.mod_pow2_bits_high h 8 n) by lia. rewrite orb_false_r.
    destruct (Z.lt_ge_cases n 16).
    + rewrite Z.mod_pow2_bits_low by lia. rewrite Z.shiftr_spec by lia.
      f_equal. lia.
    + rewrite Z.mod_pow2_bits_high by lia.
      symmetry. destruct (Z.eq_dec h 0) as [->|]; [apply Z.bits_0|].
      apply Z.bits_above_log2; [lia|].
      assert (Z.log2 h < 16) by (apply Z.log2_lt_pow2; lia). lia.
Qed.

(** Reassembling a value below [2^32] from its four bytes. *)
Lemma join32 (l : Z) :
  0 ≤ l < 2 ^ 32 →
  Z.lor (Z.shiftl (Z.shiftr l 24 mod 256) 24)
    (Z.lor (Z.shiftl (Z.shiftr l 16 mod 256) 16)
       (Z.lor (Z.shiftl (Z.shiftr l 8 mod 256) 8) (l mod 256))) = l.
Proof.
  intros Hl. apply Z.bits_inj'. intros n Hn.
  change 256 with (2 ^ 8).
  rewrite !Z.lor_spec, !Z.shiftl_spec by lia.
  assert (Hhigh : 32 ≤ n → Z.testbit l n = false).
  { intros. destruct (Z.eq_dec l 0) as [->|]; [apply Z.bits_0|].
    apply Z.bits_above_log2; [lia|].
    assert (Z.log2 l < 32) by (apply Z.log2_lt_pow2; lia). lia. }
  destruct (Z.lt_ge_cases n 8); [|destruct (Z.lt_ge_cases n 16);
    [|destruct (Z.lt_ge_cases n 24); [|destruct (Z.lt_ge_cases n 32)]]].
  - rewrite !(Z.testbit_neg_r _ (n - _)) by lia.
    rewrite Z.mod_pow2_bits_low by lia. done.
  - rewrite !(Z.testbit_neg_r _ (n - 24)), !(Z.testbit_neg_r _ (n - 16)) by lia.
    rewrite (Z.mod_pow2_bits_high l 8 n) by lia.
    rewrite Z.mod_pow2_bits_low by lia. rewrite Z.shiftr_spec by lia.
    simpl. rewrite orb_false_r. f_equal. lia.
  - rewrite !(Z.testbit_neg_r _ (n - 24)) by lia.
    rewrite (Z.mod_pow2_bits_high l 8 n) by lia.
    rewrite (Z.mod_pow2_bits_high _ 8 (n - 8)) by lia.
    rewrite Z.mod_pow2_bits_low by lia. rewrite Z.shiftr_spec by lia.
    simpl. rewrite !orb_false_r. f_equal. lia.
  - rewrite (Z.mod_pow2_bits_high l 8 n) by lia.
    rewrite (Z.mod_pow2_bits_high _ 8 (n - 8)) by lia.
    rewrite (Z.mod_pow2_bits_high _ 8 (n - 16)) by lia.
    rewrite Z.mod_pow2_bits_low by lia. rewrite Z.shiftr_spec by lia.
    rewrite !orb_false_r. f_equal. lia.
  - rewrite (Z.mod_pow2_bits_high l 8 n) by lia.
    rewrite (Z.mod_pow2_bits_high _ 8 (n - 8)) by lia.
    rewrite (Z.mod_pow2_bits_high _ 8 (n - 16)) by lia.
    rewrite (Z.mod_pow2_bits_high _ 8 (n - 24)) by lia.
    simpl. symmetry. by apply Hhigh.
Qed.

End StructFacts.

(** ** The request decoder *)

Example scenario1_decodes :
  ClientRequest_init [x04; x01; x1f; x90; x7f; x00; x00; x01; x00]
  = Ok (mkClientRequest false (Some 1) (Some 8080) (Some "127.0.0.1"%string) (Some [])).
Proof. reflexivity. Qed.

Lemma py_slice_head {A} (start : nat) (stop : Z) (data : list A) :
  0 ≤ stop ≤ Z.of_nat (length data) →
  py_slice start stop data = take (Z.to_nat stop - start) (drop start data).
Proof.
  intros H. unfold py_slice.
  destruct (stop <? 0) eqn:E; [apply Z.ltb_lt in E; lia|].
  by rewrite Z.min_l by lia.
Qed.

Lemma py_slice_drop_last {A} (start : nat) (data : list A) :
  py_slice start (-1) data = take (length data - 1 - start) (drop start data).
Proof.
  unfold py_slice. cbn [Z.ltb Z.compare].
  do 2 f_equal. lia.
Qed.

Lemma decode_long (b0 b1 p1 p0 a3 a2 a1 a0 : byte) (tail : list byte) :
  tail ≠ [] →
  ClientRequest_init (b0 :: b1 :: p1 :: p0 :: a3 :: a2 :: a1 :: a0 :: tail)
  = Ok (decoded b0 b1 p1 p0 a3 a2 a1 a0 tail).
Proof.
  intros Htail. unfold ClientRequest_init.
  destruct tail as [|t tail]; [done|].
  replace (length _ <? 9)%nat with false
    by (symmetry; apply Nat.ltb_ge; cbn [length]; lia).
  rewrite py_slice_head by (cbn [length]; lia).
  rewrite py_slice_drop_last.
  change (Z.to_nat 8 - 0)%nat with 8%nat.
  cbn [drop take Struct.unpack_BBHL].
  unfold IPv4Address_exploded.
  rewrite (fits_true 32) by apply word32_below.
  unfold decoded, set_userid, set_dst_ip, set_dst_port, set_cd, set_invalid.
  cbn [invalid cd dst_port dst_ip userid length drop].
  replace (S (S (S (S (S (S (S (S (S (length tail))))))))) - 1 - 8)%nat
    with (S (length tail) - 1)%nat by lia.
  destruct (Struct.byte_val b0 =? CLIENT_VN);
    destruct (Struct.byte_val b1 =? REQUEST_TYPE_CONNECT);
    destruct (Struct.byte_val b1 =? REQUEST_TYPE_BIND); reflexivity.
Qed.

Lemma decode_short (data : list byte) :
  (length data < 9)%nat →
  ClientRequest_init data = Ok (mkClientRequest true None None None None).
Proof.
  intros H. unfold ClientRequest_init.
  by replace (length data <? 9)%nat with true by (symmetry; by apply Nat.ltb_lt).
Qed.

(** A buffer of nine bytes or more, split into header and tail. *)
Lemma long_buffer (data : list byte) :
  (9 ≤ length data)%nat →
  ∃ b0 b1 p1 p0 a3 a2 a1 a0 tail,
    data = b0 :: b1 :: p1 :: p0 :: a3 :: a2 :: a1 :: a0 :: tail ∧ tail ≠ [].
Proof.
  intros H.
  do 9 (destruct data as [|? data]; [cbn [length] in H; lia|]).
  eauto 12.
Qed.

Lemma byte_val_eqb (b c : byte) :
  (Struct.byte_val b =? Struct.byte_val c) = bool_decide (b = c).
Proof.
  case_bool_decide as E.
  - subst. apply Z.eqb_refl.
  - apply Z.eqb_neq. intros H. by apply E, byte_val_inj.
Qed.

(** The decoder never raises. *)
Lemma ClientRequest_init_total (data : list byte) :
  ∃ req, ClientRequest_init data = Ok req.
Proof.
  destruct (decide (length data < 9)%nat) as [Hs|Hl].
  - eexists. by apply decode_short.
  - destruct (long_buffer data) as (b0&b1&p1&p0&a3&a2&a1&a0&tail&->&Ht); [lia|].
    eexists. by apply decode_long.
Qed.

(** C2. For every input buffer the decoder returns a request, and that
    request is flagged invalid exactly when the buffer is shorter than
    nine bytes, or byte 0 is not 4, or byte 1 is neither 1 nor 2; the
    port and address bytes play no part. *)
Theorem decode_invalid_iff (data : list byte) :
  ∃ req, ClientRequest_init data = Ok req ∧
    (isInvalid req = true ↔
       (length data < 9)%nat
       ∨ data !! 0%nat ≠ Some x04
       ∨ (data !! 1%nat ≠ Some x01 ∧ data !! 1%nat ≠ Some x02)).
Proof.
  destruct (decide (length data < 9)%nat) as [Hs|Hl].
  - eexists. split; [by apply decode_short|]. cbn. tauto.
  - destruct (long_buffer data) as (b0&b1&p1&p0&a3&a2&a1&a0&tail&->&Ht); [lia|].
    eexists. split; [by apply decode_long|].
    unfold isInvalid, decoded. cbn [invalid lookup list_lookup].
    change CLIENT_VN with (Struct.byte_val x04).
    change REQUEST_TYPE_CONNECT with (Struct.byte_val x01).
    change REQUEST_TYPE_BIND with (Struct.byte_val x02).
    rewrite !byte_val_eqb.
    rewrite orb_true_iff, andb_true_iff, !negb_true_iff, !bool_decide_eq_false.
    split.
    + intros [H|[H1 H2]]; [right; left | right; right; split]; congruence.
    + intros [H|[H|[H1 H2]]]; [lia | left | right; split]; congruence.
Qed.

(** C10. The decoder does not look for a NUL terminator.  For every
    buffer of nine bytes or more the user id is bytes 8 through len-2,
    whatever the final byte is and whatever the user id contains; with
    version 4 and command 1 or 2 the request is valid. *)
Theorem decode_userid_drops_last_byte (data : list byte) :
  (9 ≤ length data)%nat →
  ∃ req uid, ClientRequest_init data = Ok req ∧
    userid req = Some uid ∧
    length uid = (length data - 9)%nat ∧
    (∀ i : nat, (i < length data - 9)%nat → uid !! i = data !! (8 + i)%nat) ∧
    (data !! 0%nat = Some x04 →
     data !! 1%nat = Some x01 ∨ data !! 1%nat = Some x02 →
     isInvalid req = false).
Proof.
  intros Hlen.
  destruct (long_buffer data) as (b0&b1&p1&p0&a3&a2&a1&a0&tail&->&Ht); [lia|].
  exists (decoded b0 b1 p1 p0 a3 a2 a1 a0 tail), (take (length tail - 1) tail).
  split; [by apply decode_long|]. split; [done|].
  cbn [length] in *. split; [rewrite length_take; lia|]. split.
  - intros i Hi. rewrite lookup_take_lt by lia. done.
  - cbn [lookup list_lookup]. intros [= ->] Hcmd.
    unfold isInvalid, decoded. cbn [invalid].
    destruct Hcmd as [[= ->]|[= ->]]; reflexivity.
Qed.

Lemma decode_userid_drops_last_byte_witness :
  (9 ≤ length [x04; x01; x1f; x90; x7f; x01; x01; x01; x41; x42])%nat ∧
  ∃ req uid,
    ClientRequest_init [x04; x01; x1f; x90; x7f; x01; x01; x01; x41; x42] = Ok req ∧
    userid req = Some uid ∧
    length uid = (length [x04; x01; x1f; x90; x7f; x01; x01; x01; x41; x42] - 9)%nat ∧
    (∀ i : nat, (i < length [x04; x01; x1f; x90; x7f; x01; x01; x01; x41; x42] - 9)%nat →
       uid !! i = [x04; x01; x1f; x90; x7f; x01; x01; x01; x41; x42] !! (8 + i)%nat) ∧
    ([x04; x01; x1f; x90; x7f; x01; x01; x01; x41; x42] !! 0%nat = Some x04 →
     [x04; x01; x1f; x90; x7f; x01; x01; x01; x41; x42] !! 1%nat = Some x01
     ∨ [x04; x01; x1f; x90; x7f; x01; x01; x01; x41; x42] !! 1%nat = Some x02 →
     isInvalid req = false).
Proof.
  split; [cbn; lia|].
  apply (decode_userid_drops_last_byte [x04; x01; x1f; x90; x7f; x01; x01; x01; x41; x42]).
  cbn; lia.
Defined.

(** The same on the Python level: a user id holding a NUL and a last
    byte that is not NUL. *)
Example userid_keeps_nul_drops_last :
  ClientRequest_init [x04; x01; x1f; x90; x7f; x00; x00; x01; x41; x00; x42; x43]
  = Ok (mkClientRequest false (Some 1) (Some 8080) (Some "127.0.0.1"%string)
          (Some [x41; x00; x42])).
Proof. reflexivity. Qed.

(** ** The reply encoder *)

Lemma build_reply_rejected (w : world) :
  _build_reply CD_REQUEST_REJECTED None None w = (Ok REJECTED_reply, w).
Proof. reflexivity. Qed.

Lemma build_reply_granted (w : world) :
  _build_reply CD_REQUEST_GRANTED None None w = (Ok GRANTED_reply_zero, w).
Proof. reflexivity. Qed.

(** C7. Round trip: for a port below 2^16 and an address below 2^32 the
    GRANTED reply is eight bytes long and unpacks, as big-endian
    B, B, H, L, to version 0, code 90, that port and that address. *)
Theorem granted_reply_roundtrip (P A : Z) (w : world) :
  0 ≤ P < 2 ^ 16 →
  0 ≤ A < 2 ^ 32 →
  ∃ reply,
    _build_reply CD_REQUEST_GRANTED (Some P) (Some A) w = (Ok reply, w) ∧
    length reply = 8%nat ∧
    Struct.unpack_BBHL reply = Ok (0, 90, P, A).
Proof.
  intros HP HA. unfold _build_reply, Struct.pack_BBHL.
  cbn [default from_option id].
  rewrite (fits_true 16 P), (fits_true 32 A) by done.
  eexists. split; [reflexivity|]. split; [reflexivity|].
  cbn [Struct.unpack_BBHL]. rewrite !byte_val_low_byte.
  rewrite join16, join32 by done. reflexivity.
Qed.

Lemma granted_reply_roundtrip_witness :
  0 ≤ 8080 < 2 ^ 16 ∧ 0 ≤ 2130706433 < 2 ^ 32 ∧
  ∃ reply,
    _build_reply CD_REQUEST_GRANTED (Some 8080) (Some 2130706433) empty_world
      = (Ok reply, empty_world) ∧
    length reply = 8%nat ∧
    Struct.unpack_BBHL reply = Ok (0, 90, 8080, 2130706433).
Proof.
  split; [lia|]. split; [lia|].
  apply (granted_reply_roundtrip 8080 2130706433 empty_world); lia.
Defined.

Example granted_reply_127_0_0_1_8080 :
  _build_reply CD_REQUEST_GRANTED (Some 8080) (Some 2130706433) empty_world
  = (Ok [x00; x5a; x1f; x90; x7f; x00; x00; x01], empty_world).
Proof. reflexivity. Qed.

(** ** Socket primitives on a known socket *)

Lemma bind_ok {A B} (m : M A) (f : A → M B) (w w' : world) (a : A) :
  m w = (Ok a, w') → (m ≫= f) w = f a w'.
Proof. intros H. unfold mbind, M_bind. by rewrite H. Qed.

Lemma bind_raise {A B} (m : M A) (f : A → M B) (w w' : world) (e : exn) :
  m w = (Raise e, w') → (m ≫= f) w = (Raise e, w').
Proof. intros H. unfold mbind, M_bind. by rewrite H. Qed.

Lemma sendall_writable (w : world) (fd : nat) (s : sock) (data : list byte) :
  socks w !! fd = Some s → closed s = false → peer_gone s = false →
  sendall fd data w
  = (Ok tt, mkWorld (<[fd := mkSock false false (outbox s ++ [data])]> (socks w))
                    (trace w ++ [EvSend fd data None])).
Proof.
  intros Hs Hc Hp. unfold sendall, get_sock, mbind, M_bind.
  rewrite Hs, Hc, Hp. reflexivity.
Qed.

Lemma sendall_closed (w : world) (fd : nat) (s : sock) (data : list byte) :
  socks w !! fd = Some s → closed s = true →
  sendall fd data w
  = (Raise (OSError EBADF),
     mkWorld (socks w) (trace w ++ [EvSend fd data (Some (OSError EBADF))])).
Proof.
  intros Hs Hc. unfold sendall, get_sock, mbind, M_bind.
  rewrite Hs, Hc. reflexivity.
Qed.

Lemma close_known (w : world) (fd : nat) (s : sock) :
  socks w !! fd = Some s →
  close fd w
  = (Ok tt, mkWorld (<[fd := mkSock true (peer_gone s) (outbox s)]> (socks w))
                    (trace w ++ [EvClose fd])).
Proof.
  intros Hs. unfold close, get_sock, mbind, M_bind.
  rewrite Hs. reflexivity.
Qed.

Lemma writable_inv (w : world) (fd : nat) :
  writable w fd = true →
  ∃ s, socks w !! fd = Some s ∧ closed s = false ∧ peer_gone s = false.
Proof.
  unfold writable. destruct (socks w !! fd) as [s|]; [|done].
  intros [H1 H2]%andb_true_iff. exists s.
  by rewrite negb_true_iff in H1, H2.
Qed.

Lemma reject_and_close_writable (w : world) (fd : nat) (s : sock) :
  socks w !! fd = Some s → closed s = false → peer_gone s = false →
  reject_and_close fd w
  = (Ok tt, mkWorld (<[fd := mkSock true false (outbox s ++ [REJECTED_reply])]> (socks w))
                    (trace w ++ [EvSend fd REJECTED_reply None; EvClose fd])).
Proof.
  intros Hs Hc Hp. unfold reject_and_close.
  rewrite (bind_ok _ _ _ _ _ (build_reply_rejected w)).
  unfold send.
  rewrite (bind_ok _ _ _ _ _ (sendall_writable w fd s _ Hs Hc Hp)).
  erewrite close_known; last first.
  { cbn [socks]. apply list_lookup_insert_eq. by eapply lookup_lt_Some. }
  cbn [socks trace peer_gone outbox].
  by rewrite list_insert_insert_eq, <- app_assoc.
Qed.

(** ** The request handlers *)

Lemma try_except_ok {A} (body handler : M A) (handles : exn → bool) (w w' : world) (a : A) :
  body w = (Ok a, w') → try_except body handles handler w = (Ok a, w').
Proof. intros H. unfold try_except. by rewrite H. Qed.

Lemma try_except_caught {A} (body handler : M A) (handles : exn → bool)
    (w w' : world) (e : exn) :
  body w = (Raise e, w') → handles e = true →
  try_except body handles handler w = handler w'.
Proof. intros H He. unfold try_except. by rewrite H, He. Qed.

Lemma try_except_passed {A} (body handler : M A) (handles : exn → bool)
    (w w' : world) (e : exn) :
  body w = (Raise e, w') → handles e = false →
  try_except body handles handler w = (Raise e, w').
Proof. intros H He. unfold try_except. by rewrite H, He. Qed.

Lemma connect_known (w : world) (fd : nat) (s : sock) (ip : string) (port : Z)
    (dial : option exn) :
  socks w !! fd = Some s → closed s = false →
  connect fd ip port dial w
  = (match dial with None => Ok tt | Some e => Raise e end,
     mkWorld (socks w) (trace w ++ [EvConnect fd ip port dial])).
Proof.
  intros Hs Hc. unfold connect, get_sock, mbind, M_bind.
  rewrite Hs, Hc. cbn. by destruct dial.
Qed.

Lemma process_request_long (dial : option exn) (b0 b1 p1 p0 a3 a2 a1 a0 : byte)
    (tail : list byte) (clientConn : nat) (w : world) :
  tail ≠ [] →
  _process_request dial (b0 :: b1 :: p1 :: p0 :: a3 :: a2 :: a1 :: a0 :: tail) clientConn w
  = let req := decoded b0 b1 p1 p0 a3 a2 a1 a0 tail in
    if isInvalid req then reject_and_close clientConn w
    else if Struct.byte_val b1 =? REQUEST_TYPE_CONNECT
         then _process_connect_request dial req clientConn w
         else _process_bind_request req clientConn w.
Proof.
  intros Ht. unfold _process_request. rewrite decode_long by done.
  cbn zeta.
  erewrite bind_ok by reflexivity.
  destruct (isInvalid _); [reflexivity|].
  erewrite bind_ok by reflexivity.
  by destruct (_ =? _).
Qed.

Section ConnectHandler.
Variables (req : ClientRequest) (ip : string) (port : Z).
Variables (clientConn : nat) (w : world) (s : sock).
Hypothesis Hip : dst_ip req = Some ip.
Hypothesis Hport : dst_port req = Some port.
Hypothesis Hs : socks w !! clientConn = Some s.
Hypothesis Hc : closed s = false.
Hypothesis Hp : peer_gone s = false.

Local Abbreviation n := (length (socks w)).

Lemma dial_run (dial : option exn) :
  (ip' ← attr "dst_ip" (dst_ip req);
   port' ← attr "dst_port" (dst_port req);
   connect n ip' port' dial)
    (mkWorld (socks w ++ [fresh_sock])
             ((trace w ++ [EvSocket n]) ++ [EvSetTimeout n CONNECT_TIMEOUT]))
  = (match dial with None => Ok tt | Some e => Raise e end, dialled w ip port dial).
Proof.
  rewrite Hip, Hport.
  erewrite bind_ok by reflexivity. erewrite bind_ok by reflexivity.
  erewrite connect_known; [|by apply list_lookup_middle|done].
  unfold dialled. cbn [socks trace]. by rewrite <- !app_assoc.
Qed.

Lemma client_in_dialled : (socks w ++ [fresh_sock]) !! clientConn = Some s.
Proof. rewrite lookup_app_l; [done|]. by eapply lookup_lt_Some. Qed.

Lemma client_below : (clientConn < n)%nat.
Proof. by eapply lookup_lt_Some. Qed.

(** Dial succeeded: GRANTED is sent with the default (zero) port and
    address, and the relay thread is started. *)
Lemma connect_request_granted_run :
  _process_connect_request None req clientConn w
  = (Ok tt,
     mkWorld (<[clientConn := mkSock false false (outbox s ++ [GRANTED_reply_zero])]>
                (socks w ++ [fresh_sock]))
             (trace w ++ [EvSocket n; EvSetTimeout n CONNECT_TIMEOUT;
                          EvConnect n ip port None;
                          EvSend clientConn GRANTED_reply_zero None;
                          EvThread clientConn n])).
Proof.
  unfold _process_connect_request.
  erewrite bind_ok by reflexivity.
  erewrite bind_ok by reflexivity.
  erewrite bind_ok; last first.
  { apply try_except_ok. apply (dial_run None). }
  erewrite bind_ok by apply build_reply_granted.
  unfold send.
  erewrite bind_ok; last first.
  { apply (sendall_writable _ _ s); [apply client_in_dialled|done..]. }
  unfold thread_start, log, dialled. cbn [socks trace]. by rewrite <- !app_assoc.
Qed.

(** Dial timed out: the handler rejects and closes, then goes on to the
    statements after the [try] and sends GRANTED on the closed socket. *)
Lemma connect_request_timeout_run (e : exn) :
  is_socket_timeout e = true →
  _process_connect_request (Some e) req clientConn w
  = (Raise (OSError EBADF),
     mkWorld (<[clientConn := mkSock true false (outbox s ++ [REJECTED_reply])]>
                (<[n := mkSock true false []]> (socks w ++ [fresh_sock])))
             (trace w ++ [EvSocket n; EvSetTimeout n CONNECT_TIMEOUT;
                          EvConnect n ip port (Some e);
                          EvClose n;
                          EvSend clientConn REJECTED_reply None;
                          EvClose clientConn;
                          EvSend clientConn GRANTED_reply_zero (Some (OSError EBADF))])).
Proof.
  intros He.
  pose proof client_below as Hlt.
  unfold _process_connect_request.
  erewrite bind_ok by reflexivity.
  erewrite bind_ok by reflexivity.
  erewrite bind_ok; last first.
  { erewrite try_except_caught; [|apply (dial_run (Some e))|done].
    erewrite bind_ok; last first.
    { apply close_known. cbn [dialled socks]. by apply list_lookup_middle. }
    apply (reject_and_close_writable _ _ s); [|done..].
    cbn [socks]. rewrite list_lookup_insert_ne by (fold n; lia).
    apply client_in_dialled. }
  erewrite bind_ok by apply build_reply_granted.
  unfold send.
  erewrite bind_raise; last first.
  { eapply sendall_closed.
    - unfold dialled. cbn [socks]. apply list_lookup_insert_eq.
      rewrite length_insert, length_app. cbn [length]. fold n. lia.
    - reflexivity. }
  unfold dialled, fresh_sock. cbn [socks trace peer_gone outbox].
  by rewrite <- !app_assoc.
Qed.

(** Dial failed with anything but a timeout: nothing catches it. *)
Lemma connect_request_failure_run (e : exn) :
  is_socket_timeout e = false →
  _process_connect_request (Some e) req clientConn w
  = (Raise e, dialled w ip port (Some e)).
Proof.
  intros He. unfold _process_connect_request.
  erewrite bind_ok by reflexivity.
  erewrite bind_ok by reflexivity.
  erewrite bind_raise; [reflexivity|].
  by erewrite try_except_passed; [|apply (dial_run (Some e))|done].
Qed.

End ConnectHandler.

(** ** Reading a world after an update *)

Lemma delivered_insert (l : list sock) (t : list event) (fd : nat) (s : sock) :
  (fd < length l)%nat → delivered (mkWorld (<[fd := s]> l) t) fd = outbox s.
Proof. intros H. unfold delivered. cbn [socks]. by rewrite list_lookup_insert_eq. Qed.

Lemma is_closed_insert (l : list sock) (t : list event) (fd : nat) (s : sock) :
  (fd < length l)%nat → is_closed (mkWorld (<[fd := s]> l) t) fd = closed s.
Proof. intros H. unfold is_closed. cbn [socks]. by rewrite list_lookup_insert_eq. Qed.

Lemma delivered_known (w : world) (fd : nat) (s : sock) :
  socks w !! fd = Some s → delivered w fd = outbox s.
Proof. intros H. unfold delivered. by rewrite H. Qed.

Lemma send_calls_app (fd : nat) (t t' : list event) :
  send_calls fd (t ++ t') = send_calls fd t ++ send_calls fd t'.
Proof.
  induction t as [|e t IH]; [done|].
  destruct e; cbn [app send_calls]; try done.
  case_bool_decide; cbn [app]; by rewrite IH.
Qed.

Lemma data_read_app (fd : nat) (t t' : list event) :
  data_read fd (t ++ t') = data_read fd t ++ data_read fd t'.
Proof.
  induction t as [|e t IH]; [done|].
  destruct e as [| | | | | | | |fd' [data|]| | | |]; cbn [app data_read]; try done.
  destruct (_ && _); cbn [app]; by rewrite IH.
Qed.

Lemma data_read_eof (fd s : nat) : data_read fd [EvRecv s (Ok [])] = [].
Proof. cbn [data_read]. by rewrite (bool_decide_eq_true_2 ([] = [])), andb_false_r. Qed.

Lemma threads_app (t t' : list event) : threads (t ++ t') = threads t ++ threads t'.
Proof. apply omap_app. Qed.

Lemma valid_request_inv (command : byte) (data : list byte) :
  valid_request command data →
  ∃ p1 p0 a3 a2 a1 a0 tail,
    data = x04 :: command :: p1 :: p0 :: a3 :: a2 :: a1 :: a0 :: tail ∧ tail ≠ [].
Proof.
  intros (Hlen & H0 & H1).
  destruct (long_buffer data Hlen) as (b0&b1&p1&p0&a3&a2&a1&a0&tail&->&Ht).
  cbn in H0, H1. injection H0 as ->. injection H1 as ->. eauto 10.
Qed.

Lemma scenario1_valid : valid_request x01 scenario1_request.
Proof. unfold valid_request. cbn. repeat split; lia. Defined.

Lemma scenario2_valid : valid_request x01 scenario2_request.
Proof. unfold valid_request. cbn. repeat split; lia. Defined.

Lemma scenario4_valid : valid_request x02 scenario4_request.
Proof. unfold valid_request. cbn. repeat split; lia. Defined.

(** C9. For every valid BIND request on a client connection that can be
    written to, the handler makes exactly two calls: it sends the reply
    00 5B 0000 00000000 and closes the client connection.  No socket is
    created and nothing is dialled. *)
Theorem bind_request_rejected (dial : option exn) (data : list byte)
    (clientConn : nat) (w : world) :
  valid_request x02 data →
  writable w clientConn = true →
  ∃ w', _process_request dial data clientConn w = (Ok tt, w') ∧
    trace w' = trace w ++ [EvSend clientConn [x00; x5b; x00; x00; x00; x00; x00; x00] None;
                           EvClose clientConn] ∧
    delivered w' clientConn
      = delivered w clientConn ++ [[x00; x5b; x00; x00; x00; x00; x00; x00]] ∧
    is_closed w' clientConn = true ∧
    sockets_created (trace w') = sockets_created (trace w) ∧
    length (socks w') = length (socks w).
Proof.
  intros Hv Hw.
  destruct (valid_request_inv _ _ Hv) as (p1&p0&a3&a2&a1&a0&tail&->&Ht).
  destruct (writable_inv _ _ Hw) as (s&Hs&Hc&Hp).
  pose proof (lookup_lt_Some _ _ _ Hs) as Hlt.
  rewrite process_request_long by done. cbn zeta.
  change (isInvalid (decoded x04 x02 p1 p0 a3 a2 a1 a0 tail)) with false.
  change (Struct.byte_val x02 =? REQUEST_TYPE_CONNECT) with false. cbn iota.
  change (_process_bind_request _ clientConn) with (reject_and_close clientConn).
  rewrite (reject_and_close_writable w clientConn s) by done.
  eexists. split; [reflexivity|].
  split; [reflexivity|].
  split; [by rewrite delivered_insert, (delivered_known w clientConn s)|].
  split; [by rewrite is_closed_insert|].
  split; [cbn [trace]; unfold sockets_created; by rewrite omap_app, app_nil_r|].
  cbn [socks]. by rewrite length_insert.
Qed.

Lemma bind_request_rejected_witness :
  valid_request x02 scenario4_request ∧
  writable one_client 0 = true ∧
  ∃ w', _process_request None scenario4_request 0 one_client = (Ok tt, w') ∧
    trace w' = trace one_client
                 ++ [EvSend 0 [x00; x5b; x00; x00; x00; x00; x00; x00] None; EvClose 0] ∧
    delivered w' 0
      = delivered one_client 0 ++ [[x00; x5b; x00; x00; x00; x00; x00; x00]] ∧
    is_closed w' 0 = true ∧
    sockets_created (trace w') = sockets_created (trace one_client) ∧
    length (socks w') = length (socks one_client).
Proof.
  split; [exact scenario4_valid|]. split; [reflexivity|].
  apply (bind_request_rejected None scenario4_request 0%nat one_client scenario4_valid).
  reflexivity.
Defined.

(** ** The GRANTED reply *)

(** Scenario 1: a CONNECT to 127.0.0.1:8080 whose dial succeeds is
    answered 00 5A 0000 00000000, not 00 5A 1F90 7F000001. *)
Lemma granted_reply_does_not_echo :
  valid_request x01 scenario1_request ∧ writable one_client 0 = true ∧
  ∃ w', _process_request None scenario1_request 0 one_client = (Ok tt, w') ∧
    delivered w' 0 = [[x00; x5a; x00; x00; x00; x00; x00; x00]] ∧
    ¬ granted_reply_echoes_destination scenario1_request one_client w' 0.
Proof.
  split; [exact scenario1_valid|].
  split; [reflexivity|].
  eexists. split; [reflexivity|]. split; [reflexivity|].
  intros (reply & Hd & _ & _ & Hecho).
  cbn in Hd. injection Hd as <-. discriminate Hecho.
Qed.

(** C3, as the code has it. For every valid CONNECT request whose dial
    succeeds, on a client connection that can be written to, the handler
    sends the eight-byte reply 00 5A 0000 00000000 — version 0, code 90,
    port and address fields zero whatever the request's destination —
    and starts the relay on the client and the new outbound socket, both
    left open. *)
Theorem granted_reply_is_zero_filled (data : list byte) (clientConn : nat) (w : world) :
  valid_request x01 data →
  writable w clientConn = true →
  ∃ w', _process_request None data clientConn w = (Ok tt, w') ∧
    delivered w' clientConn
      = delivered w clientConn ++ [[x00; x5a; x00; x00; x00; x00; x00; x00]] ∧
    send_calls clientConn (trace w')
      = send_calls clientConn (trace w) ++ [[x00; x5a; x00; x00; x00; x00; x00; x00]] ∧
    threads (trace w') = threads (trace w) ++ [(clientConn, length (socks w))] ∧
    is_open w' clientConn = true ∧
    is_open w' (length (socks w)) = true.
Proof.
  intros Hv Hw.
  destruct (valid_request_inv _ _ Hv) as (p1&p0&a3&a2&a1&a0&tail&->&Ht).
  destruct (writable_inv _ _ Hw) as (s&Hs&Hc&Hp).
  pose proof (lookup_lt_Some _ _ _ Hs) as Hlt.
  rewrite process_request_long by done. cbn zeta.
  change (isInvalid (decoded x04 x01 p1 p0 a3 a2 a1 a0 tail)) with false.
  change (Struct.byte_val x01 =? REQUEST_TYPE_CONNECT) with true. cbn iota.
  erewrite (connect_request_granted_run _ _ _ clientConn w s); [|reflexivity..|done|done|done].
  eexists. split; [reflexivity|].
  split.
  { rewrite delivered_insert by (rewrite length_app; cbn [length]; lia).
    by rewrite (delivered_known w clientConn s). }
  cbn [trace]. split.
  { rewrite send_calls_app. cbn [send_calls].
    by rewrite bool_decide_eq_true_2. }
  split; [by rewrite threads_app|].
  unfold is_open. cbn [socks]. split.
  - by rewrite list_lookup_insert_eq by (rewrite length_app; cbn [length]; lia).
  - rewrite list_lookup_insert_ne by lia.
    by rewrite list_lookup_middle.
Qed.

Lemma granted_reply_is_zero_filled_witness :
  valid_request x01 scenario1_request ∧ writable one_client 0 = true ∧
  ∃ w', _process_request None scenario1_request 0 one_client = (Ok tt, w') ∧
    delivered w' 0
      = delivered one_client 0 ++ [[x00; x5a; x00; x00; x00; x00; x00; x00]] ∧
    send_calls 0 (trace w')
      = send_calls 0 (trace one_client) ++ [[x00; x5a; x00; x00; x00; x00; x00; x00]] ∧
    threads (trace w') = threads (trace one_client) ++ [(0%nat, length (socks one_client))] ∧
    is_open w' 0 = true ∧
    is_open w' (length (socks one_client)) = true.
Proof.
  split; [exact scenario1_valid|]. split; [reflexivity|].
  apply (granted_reply_is_zero_filled scenario1_request 0%nat one_client scenario1_valid).
  reflexivity.
Defined.

(** ** A dial that fails *)

(** What the handler does with any valid CONNECT request when the dial
    times out: the outbound socket is closed, REJECTED is sent, the
    client connection is closed, and then the statement after the [try]
    sends GRANTED on the closed client socket, which raises. *)
Lemma dial_timeout_run (e : exn) (data : list byte) (clientConn : nat) (w : world) :
  is_socket_timeout e = true →
  valid_request x01 data →
  writable w clientConn = true →
  ∃ w', _process_request (Some e) data clientConn w
          = (Raise (OSError EBADF), w') ∧
    send_calls clientConn (trace w')
      = send_calls clientConn (trace w) ++ [REJECTED_reply; GRANTED_reply_zero] ∧
    delivered w' clientConn = delivered w clientConn ++ [REJECTED_reply] ∧
    is_closed w' clientConn = true ∧
    is_closed w' (length (socks w)) = true ∧
    threads (trace w') = threads (trace w).
Proof.
  intros He Hv Hw.
  destruct (valid_request_inv _ _ Hv) as (p1&p0&a3&a2&a1&a0&tail&->&Ht).
  destruct (writable_inv _ _ Hw) as (s&Hs&Hc&Hp).
  pose proof (lookup_lt_Some _ _ _ Hs) as Hlt.
  rewrite process_request_long by done. cbn zeta.
  change (isInvalid (decoded x04 x01 p1 p0 a3 a2 a1 a0 tail)) with false.
  change (Struct.byte_val x01 =? REQUEST_TYPE_CONNECT) with true. cbn iota.
  erewrite (connect_request_timeout_run _ _ _ clientConn w s);
    [|reflexivity|reflexivity|done|done|done|done].
  eexists. split; [reflexivity|].
  assert (Hlen : (clientConn < length (<[length (socks w) := mkSock true false []]>
                                         (socks w ++ [fresh_sock])))%nat).
  { rewrite length_insert, length_app. cbn [length]. lia. }
  cbn [trace]. split.
  { rewrite send_calls_app. cbn [send_calls].
    by rewrite !bool_decide_eq_true_2. }
  split; [by rewrite delivered_insert, (delivered_known w clientConn s)|].
  split; [by rewrite is_closed_insert|].
  split; [|by rewrite threads_app, app_nil_r].
  unfold is_closed. cbn [socks].
  rewrite list_lookup_insert_ne by lia.
  by rewrite list_lookup_insert_eq by (rewrite length_app; cbn [length]; lia).
Qed.

(** C1. For every valid CONNECT request whose dial times out, on a
    client connection that can be written to, exactly one reply reaches
    the client, the REJECTED reply 00 5B 0000 00000000; the outbound
    socket and the client connection are both closed; nothing more, and
    so no GRANTED reply, is delivered after it; and no relay thread is
    started.  (The handler does not return: its next statement sends on
    the client socket it has just closed, and that call raises
    OSError (EBADF).) *)
Theorem dial_timeout_rejects_once (e : exn) (data : list byte) (clientConn : nat)
    (w : world) :
  is_socket_timeout e = true →
  valid_request x01 data →
  writable w clientConn = true →
  ∃ w', _process_request (Some e) data clientConn w = (Raise (OSError EBADF), w') ∧
    delivered w' clientConn
      = delivered w clientConn ++ [[x00; x5b; x00; x00; x00; x00; x00; x00]] ∧
    is_closed w' clientConn = true ∧
    is_closed w' (length (socks w)) = true ∧
    threads (trace w') = threads (trace w).
Proof.
  intros He Hv Hw.
  destruct (dial_timeout_run e data clientConn w He Hv Hw)
    as (w' & Hrun & _ & Hdel & Hc & Hs & Hthr).
  by exists w'.
Qed.

Lemma dial_timeout_rejects_once_witness :
  is_socket_timeout SocketTimeout = true ∧
  valid_request x01 scenario2_request ∧
  writable one_client 0 = true ∧
  ∃ w', _process_request (Some SocketTimeout) scenario2_request 0 one_client
          = (Raise (OSError EBADF), w') ∧
    delivered w' 0
      = delivered one_client 0 ++ [[x00; x5b; x00; x00; x00; x00; x00; x00]] ∧
    is_closed w' 0 = true ∧
    is_closed w' (length (socks one_client)) = true ∧
    threads (trace w') = threads (trace one_client).
Proof.
  split; [reflexivity|]. split; [exact scenario2_valid|]. split; [reflexivity|].
  apply (dial_timeout_rejects_once SocketTimeout scenario2_request 0%nat one_client);
    [reflexivity | exact scenario2_valid | reflexivity].
Defined.

(** Scenario 2 call by call: after the REJECTED reply and the two
    closes, the handler calls [send] once more, with the GRANTED reply,
    on the closed client socket; the call fails and nothing is
    delivered by it. *)
Example scenario2_dial_timeout_trace :
  ∃ w', _process_request (Some SocketTimeout) scenario2_request 0 one_client
          = (Raise (OSError EBADF), w') ∧
    trace w' = [ EvSocket 1; EvSetTimeout 1 20;
                 EvConnect 1 "0.0.0.0" 8080 (Some SocketTimeout);
                 EvClose 1;
                 EvSend 0 [x00; x5b; x00; x00; x00; x00; x00; x00] None;
                 EvClose 0;
                 EvSend 0 [x00; x5a; x00; x00; x00; x00; x00; x00] (Some (OSError EBADF)) ] ∧
    delivered w' 0 = [ [x00; x5b; x00; x00; x00; x00; x00; x00] ] ∧
    is_closed w' 0 = true ∧ is_closed w' 1 = true ∧
    threads (trace w') = [].
Proof. eexists. repeat split. Qed.

(** A kernel-level timeout (errno ETIMEDOUT) takes the same path. *)
Example kernel_timeout_is_caught :
  ∃ w', _process_request (Some (OSError 110)) scenario2_request 0 one_client
          = (Raise (OSError EBADF), w') ∧
    delivered w' 0 = [ [x00; x5b; x00; x00; x00; x00; x00; x00] ] ∧
    is_closed w' 0 = true ∧ is_closed w' 1 = true.
Proof. eexists. repeat split. Qed.

(** What the handler does with any valid CONNECT request when the dial
    fails with an exception other than [socket.timeout]: the exception
    leaves the handler; nothing is sent and nothing is closed. *)
Lemma dial_failure_run (e : exn) (data : list byte) (clientConn : nat) (w : world) :
  is_socket_timeout e = false →
  valid_request x01 data →
  writable w clientConn = true →
  ∃ w', _process_request (Some e) data clientConn w = (Raise e, w') ∧
    send_calls clientConn (trace w') = send_calls clientConn (trace w) ∧
    delivered w' clientConn = delivered w clientConn ∧
    is_open w' clientConn = true ∧
    is_open w' (length (socks w)) = true.
Proof.
  intros He Hv Hw.
  destruct (valid_request_inv _ _ Hv) as (p1&p0&a3&a2&a1&a0&tail&->&Ht).
  destruct (writable_inv _ _ Hw) as (s&Hs&Hc&Hp).
  pose proof (lookup_lt_Some _ _ _ Hs) as Hlt.
  rewrite process_request_long by done. cbn zeta.
  change (isInvalid (decoded x04 x01 p1 p0 a3 a2 a1 a0 tail)) with false.
  change (Struct.byte_val x01 =? REQUEST_TYPE_CONNECT) with true. cbn iota.
  erewrite (connect_request_failure_run _ _ _ clientConn w); [|reflexivity|reflexivity|done].
  eexists. split; [reflexivity|].
  unfold dialled, delivered, is_open. cbn [socks trace].
  split; [by rewrite send_calls_app, app_nil_r|].
  rewrite lookup_app_l, Hs, Hc by done.
  by rewrite list_lookup_middle.
Qed.

(** C6, on the code. A CONNECT request whose dial is refused, or whose
    destination is unreachable (OSError 113): the exception leaves the
    handler, no reply is sent, and neither socket is closed. *)
Theorem dial_refused_sends_no_reply :
  valid_request x01 scenario1_request ∧ writable one_client 0 = true
  ∧
  (∃ w', _process_request (Some ConnectionRefusedError) scenario1_request 0 one_client
           = (Raise ConnectionRefusedError, w') ∧
     trace w' = [ EvSocket 1; EvSetTimeout 1 20;
                  EvConnect 1 "127.0.0.1" 8080 (Some ConnectionRefusedError) ] ∧
     delivered w' 0 = [] ∧ is_open w' 0 = true ∧ is_open w' 1 = true)
  ∧
  (∃ w', _process_request (Some (OSError 113)) scenario1_request 0 one_client
           = (Raise (OSError 113), w') ∧
     trace w' = [ EvSocket 1; EvSetTimeout 1 20;
                  EvConnect 1 "127.0.0.1" 8080 (Some (OSError 113)) ] ∧
     delivered w' 0 = [] ∧ is_open w' 0 = true ∧ is_open w' 1 = true).
Proof.
  split; [exact scenario1_valid|]. split; [reflexivity|].
  split; eexists; repeat split.
Qed.

(** ** The relay loop *)

(** [_close_all] is an attribute of the class, not a name in scope of
    the method body: the bare call raises before anything is closed. *)
Lemma call_close_all_unbound (src dest : nat) (w : world) :
  call_close_all src dest w = (Raise (NameError "_close_all"), w).
Proof. reflexivity. Qed.

Lemma call_close_all_then {A} (src dest : nat) (k : M A) (w : world) :
  (call_close_all src dest;; k) w = (Raise (NameError "_close_all"), w).
Proof. by erewrite bind_raise by apply call_close_all_unbound. Qed.

Lemma select_open (src dest : nat) (w : world) (a b : sock) :
  socks w !! src = Some a → socks w !! dest = Some b →
  closed a = false → closed b = false →
  select src dest w = (Ok tt, w).
Proof.
  intros Ha Hb Hca Hcb. unfold select, get_sock, mbind, M_bind.
  by rewrite Ha, Hb, Hca, Hcb.
Qed.

Lemma recv_open (w : world) (fd : nat) (s : sock) (bufsize : Z) (r : result (list byte)) :
  socks w !! fd = Some s → closed s = false →
  recv fd bufsize r w = (r, mkWorld (socks w) (trace w ++ [EvRecv fd r])).
Proof.
  intros Hs Hc. unfold recv, get_sock, mbind, M_bind.
  rewrite Hs, Hc. cbn. by destruct r.
Qed.

(** *** The relay never closes a socket and never returns *)

Lemma keeps_ret {A} (a : A) : keeps_flags (mret a : M A).
Proof. done. Qed.

Lemma keeps_raise {A} (e : exn) : keeps_flags (raise e : M A).
Proof. done. Qed.

Lemma keeps_log (e : event) : keeps_flags (log e).
Proof. done. Qed.

Lemma keeps_bind {A B} (m : M A) (f : A → M B) :
  keeps_flags m → (∀ a, keeps_flags (f a)) → keeps_flags (m ≫= f).
Proof.
  intros Hm Hf w fd. unfold mbind, M_bind.
  specialize (Hm w fd). destruct (m w) as [[a|e] w1]; cbn [snd] in *; [|done].
  by rewrite Hf.
Qed.

Lemma keeps_try_except {A} (body handler : M A) (handles : exn → bool) :
  keeps_flags body → keeps_flags handler → keeps_flags (try_except body handles handler).
Proof.
  intros Hb Hh w fd. unfold try_except.
  specialize (Hb w fd). destruct (body w) as [[a|e] w1]; cbn [snd] in *; [done|].
  destruct (handles e); [|done]. by rewrite Hh.
Qed.

Lemma keeps_get_sock (fd : nat) : keeps_flags (get_sock fd).
Proof. intros w fd'. unfold get_sock. by destruct (socks w !! fd). Qed.

Lemma keeps_select (src dest : nat) : keeps_flags (select src dest).
Proof.
  apply keeps_bind; [apply keeps_get_sock|]. intros a.
  apply keeps_bind; [apply keeps_get_sock|]. intros b.
  destruct (_ || _); [apply keeps_raise | apply keeps_ret].
Qed.

Lemma keeps_recv (fd : nat) (bufsize : Z) (r : result (list byte)) :
  keeps_flags (recv fd bufsize r).
Proof.
  apply keeps_bind; [apply keeps_get_sock|]. intros s.
  destruct (closed s); [apply keeps_raise|].
  apply keeps_bind; [apply keeps_log|]. intros _.
  destruct r; [apply keeps_ret | apply keeps_raise].
Qed.

Lemma keeps_sendall (fd : nat) (data : list byte) : keeps_flags (sendall fd data).
Proof.
  intros w fd'. unfold sendall, get_sock, mbind, M_bind.
  destruct (socks w !! fd) as [s|] eqn:Hs; [|done].
  destruct (closed s) eqn:Hc; [done|].
  destruct (peer_gone s); [done|].
  unfold is_closed. cbn [snd socks put_sock log fst].
  destruct (decide (fd' = fd)) as [->|Hne].
  - rewrite list_lookup_insert_eq by (by eapply lookup_lt_Some). by rewrite Hs.
  - by rewrite list_lookup_insert_ne.
Qed.

Lemma keeps_call_close_all (src dest : nat) : keeps_flags (call_close_all src dest).
Proof. intros w fd. by rewrite call_close_all_unbound. Qed.

Lemma keeps_for_ready (src dest : nat) (rd : list (nat * result (list byte))) :
  keeps_flags (for_ready src dest rd).
Proof.
  induction rd as [|[s r] rest IH]; [apply keeps_ret|].
  cbn [for_ready]. apply keeps_bind.
  - apply keeps_try_except.
    + apply keeps_bind; [apply keeps_recv | intros; apply keeps_ret].
    + apply keeps_bind; [apply keeps_call_close_all | intros; apply keeps_ret].
  - intros [data|]; [|apply keeps_ret].
    case_bool_decide.
    + apply keeps_bind; [apply keeps_call_close_all | intros; apply keeps_ret].
    + apply keeps_bind; [|done].
      case_bool_decide; apply keeps_sendall.
Qed.

(** Whatever the network does, the relay leaves the [closed] flag of
    every socket as it found it. *)
Lemma relay_never_closes (net : list select_result) (src dest : nat) :
  keeps_flags (_forward_connection net src dest).
Proof.
  induction net as [|round later IH]; cbn [_forward_connection].
  - apply keeps_bind; [apply keeps_select | intros; apply keeps_ret].
  - apply keeps_bind; [apply keeps_select|]. intros _.
    apply keeps_bind; [apply keeps_log|]. intros _.
    destruct (negb _).
    + apply keeps_bind; [apply keeps_call_close_all | intros; apply keeps_ret].
    + apply keeps_bind; [apply keeps_for_ready|].
      intros [|]; [done | apply keeps_ret].
Qed.

Lemma for_ready_never_returns (src dest : nat) (rd : list (nat * result (list byte)))
    (w : world) :
  (for_ready src dest rd w).1 ≠ Ok Returned.
Proof.
  revert w. induction rd as [|[s r] rest IH]; intros w; [done|].
  cbn [for_ready]. unfold mbind at 1, M_bind at 1, try_except.
  destruct ((recv s BUFSIZE r ≫= λ data, mret (Some data)) w) as [[got|e] w1] eqn:E.
  - destruct got as [data|].
    + case_bool_decide.
      * by rewrite call_close_all_then.
      * unfold mbind, M_bind.
        destruct ((if bool_decide (s = src) then sendall dest data else sendall src data) w1)
          as [[[]|e] w2]; [apply IH|done].
    + exfalso. unfold mbind, M_bind in E.
      destruct (recv s BUFSIZE r w) as [[d|e] w2]; [unfold mret, M_ret in E|]; congruence.
  - destruct (is_ConnectionResetError e); [|done].
    by rewrite call_close_all_then.
Qed.

(** The relay never reaches a [return]: a run ends blocked in [select]
    or by an exception. *)
Lemma relay_never_returns (net : list select_result) (src dest : nat) (w : world) :
  (_forward_connection net src dest w).1 ≠ Ok RelayReturned.
Proof.
  revert w. induction net as [|round later IH]; intros w; cbn [_forward_connection].
  - unfold mbind, M_bind. by destruct (select src dest w) as [[[]|e] w1].
  - unfold mbind at 1, M_bind at 1.
    destruct (select src dest w) as [[[]|e] w1]; [|done].
    unfold mbind at 1, M_bind at 1. cbn [log].
    destruct (negb _).
    + by rewrite call_close_all_then.
    + unfold mbind, M_bind.
      pose proof (for_ready_never_returns src dest (ready round)
                    (mkWorld (socks w1) (trace w1 ++ [EvSelect (ready round).*1 (err round)]))) as Hn.
      destruct (for_ready _ _ _ _) as [[[|]|e] w2]; [apply IH|done|done].
Qed.

(** C4, on the code. Each way the relay loop is left — a socket in the
    error set of [select], a connection reset during [recv], a
    zero-length read — ends in NameError at the bare call
    [_close_all(...)], with the client socket and the destination socket
    both still open. *)
Theorem relay_exit_closes_nothing :
  (∃ w', _forward_connection [mkSelect [] [1%nat]] 0 1 relay_pair
           = (Raise (NameError "_close_all"), w') ∧
     is_open w' 0 = true ∧ is_open w' 1 = true)
  ∧
  (∃ w', _forward_connection [mkSelect [(0%nat, Raise ConnectionResetError)] []] 0 1 relay_pair
           = (Raise (NameError "_close_all"), w') ∧
     is_open w' 0 = true ∧ is_open w' 1 = true)
  ∧
  (∃ w', _forward_connection [mkSelect [(1%nat, Ok [])] []] 0 1 relay_pair
           = (Raise (NameError "_close_all"), w') ∧
     is_open w' 0 = true ∧ is_open w' 1 = true).
Proof. repeat split; eexists; repeat split. Qed.

(** A reset reported by errno (ECONNRESET) takes the same path as
    ConnectionResetError. *)
Example relay_reset_by_errno :
  (_forward_connection [mkSelect [(0%nat, Raise (OSError 104))] []] 0 1 relay_pair).1
  = Raise (NameError "_close_all").
Proof. reflexivity. Qed.

(** *** Forwarding *)

Lemma offered_in_cons (fd s : nat) (data : list byte) (rest : list (nat * result (list byte))) :
  offered_in fd ((s, Ok data) :: rest)
  = (if bool_decide (s = fd) then [data] else []) ++ offered_in fd rest.
Proof. unfold offered_in. cbn. by case_bool_decide. Qed.

Lemma offered_in_app (fd : nat) (l l' : list (nat * result (list byte))) :
  offered_in fd (l ++ l') = offered_in fd l ++ offered_in fd l'.
Proof. apply omap_app. Qed.

Section Forwarding.
Variables src dest : nat.
Hypothesis Hne : src ≠ dest.

Lemma writable_insert_eq (l : list sock) (t : list event) (fd : nat) (o : list (list byte)) :
  (fd < length l)%nat →
  writable (mkWorld (<[fd := mkSock false false o]> l) t) fd = true.
Proof. intros H. unfold writable. cbn [socks]. by rewrite list_lookup_insert_eq. Qed.

Lemma writable_insert_ne (w : world) (t : list event) (fd fd' : nat) (s : sock) :
  fd ≠ fd' →
  writable (mkWorld (<[fd := s]> (socks w)) t) fd' = writable w fd'.
Proof. intros H. unfold writable. cbn [socks]. by rewrite list_lookup_insert_ne. Qed.

Lemma delivered_insert_ne (w : world) (t : list event) (fd fd' : nat) (s : sock) :
  fd ≠ fd' →
  delivered (mkWorld (<[fd := s]> (socks w)) t) fd' = delivered w fd'.
Proof. intros H. unfold delivered. cbn [socks]. by rewrite list_lookup_insert_ne. Qed.

Lemma recv_in_pair (s : nat) (r : result (list byte)) (w : world) :
  s = src ∨ s = dest →
  writable w src = true → writable w dest = true →
  recv s BUFSIZE r w = (r, mkWorld (socks w) (trace w ++ [EvRecv s r])).
Proof.
  intros Hs Hws Hwd.
  destruct (writable_inv _ _ Hws) as (a&Ha&Hca&Hpa).
  destruct (writable_inv _ _ Hwd) as (b&Hb&Hcb&Hpb).
  destruct Hs as [->| ->]; by eapply recv_open.
Qed.

(** Events that read no data leave everything as it was. *)
Lemma relayed_idle (w : world) (t : list event) :
  writable w src = true → writable w dest = true →
  data_read src t = [] → data_read dest t = [] →
  relayed src dest [] w (mkWorld (socks w) (trace w ++ t)).
Proof.
  intros Hs Hd Hts Htd. exists t. rewrite Hts, Htd.
  unfold offered_in. cbn [omap list_omap]. by rewrite !app_nil_r.
Qed.

Lemma relayed_app (l1 l2 : list (nat * result (list byte))) (w1 w2 w3 : world) :
  relayed src dest l1 w1 w2 → relayed src dest l2 w2 w3 →
  relayed src dest (l1 ++ l2) w1 w3.
Proof.
  intros (t1&Ht1&Hrs1&Hrd1&Hd1&Hs1&_&_) (t2&Ht2&Hrs2&Hrd2&Hd2&Hs2&Hws&Hwd).
  exists (t1 ++ t2). rewrite !data_read_app, !offered_in_app.
  rewrite Ht2, Ht1, Hd2, Hd1, Hs2, Hs1, Hrs1, Hrs2, Hrd1, Hrd2.
  by rewrite !app_assoc.
Qed.

Lemma relayed_refl (w : world) :
  writable w src = true → writable w dest = true → relayed src dest [] w w.
Proof.
  intros Hs Hd. exists []. unfold offered_in. cbn [omap list_omap data_read].
  by rewrite !app_nil_r.
Qed.

Lemma offered_in_one (fd s : nat) (data : list byte) :
  offered_in fd [(s, Ok data)] = if bool_decide (s = fd) then [data] else [].
Proof. rewrite offered_in_cons. unfold offered_in. cbn [omap list_omap]. by rewrite app_nil_r. Qed.

(** One non-empty read from [s], a socket of the pair, and its [sendall]
    to the other socket. *)
Lemma relayed_one (s : nat) (data : list byte) (w : world) :
  s = src ∨ s = dest →
  writable w src = true → writable w dest = true →
  data ≠ [] →
  ∃ w', (if bool_decide (s = src) then sendall dest data else sendall src data)
          (mkWorld (socks w) (trace w ++ [EvRecv s (Ok data)])) = (Ok tt, w') ∧
    relayed src dest [(s, Ok data)] w w'.
Proof.
  intros Hs Hws Hwd Hdata.
  destruct (writable_inv _ _ Hws) as (a&Ha&Hca&Hpa).
  destruct (writable_inv _ _ Hwd) as (b&Hb&Hcb&Hpb).
  pose proof (lookup_lt_Some _ _ _ Ha). pose proof (lookup_lt_Some _ _ _ Hb).
  unfold relayed. rewrite !offered_in_one.
  case_bool_decide as Hsrc.
  - subst s. eexists. split; [by apply (sendall_writable _ dest b)|].
    exists [EvRecv src (Ok data); EvSend dest data None].
    cbn [trace socks data_read].
    rewrite (bool_decide_eq_true_2 (src = src)) by done.
    rewrite (bool_decide_eq_false_2 (data = [])) by done.
    rewrite (bool_decide_eq_false_2 (src = dest)) by done.
    cbn [andb negb]. rewrite app_nil_r.
    rewrite delivered_insert, delivered_insert_ne by done.
    rewrite writable_insert_eq, writable_insert_ne by done.
    rewrite (delivered_known w dest b) by done.
    by rewrite <- app_assoc.
  - destruct Hs as [->| ->]; [done|].
    eexists. split; [by apply (sendall_writable _ src a)|].
    exists [EvRecv dest (Ok data); EvSend src data None].
    cbn [trace socks data_read].
    rewrite (bool_decide_eq_true_2 (dest = dest)) by done.
    rewrite (bool_decide_eq_false_2 (data = [])) by done.
    rewrite (bool_decide_eq_false_2 (dest = src)) by done.
    cbn [andb negb]. rewrite app_nil_r.
    rewrite delivered_insert, delivered_insert_ne by done.
    rewrite writable_insert_eq, writable_insert_ne by done.
    rewrite (delivered_known w src a) by done.
    by rewrite <- app_assoc.
Qed.

(** The [for] loop reads and forwards up to the first read that ends the
    loop; it goes on to the next round exactly when there is none. *)
Lemma for_ready_relays (rd : list (nat * result (list byte))) (w : world) :
  Forall (λ p, p.1 = src ∨ p.1 = dest) rd →
  writable w src = true → writable w dest = true →
  relayed src dest (read_until_stop rd).1 w (for_ready src dest rd w).2 ∧
  (if (read_until_stop rd).2
   then ∃ e, (for_ready src dest rd w).1 = Raise e
   else (for_ready src dest rd w).1 = Ok Continue).
Proof.
  revert w. induction rd as [|[s r] rest IH]; intros w Hrd Hws Hwd.
  { split; [by apply relayed_refl | done]. }
  apply Forall_cons in Hrd as [Hs Hrest]. cbn [fst] in Hs.
  assert (Hstep : for_ready src dest ((s, r) :: rest) w
    = match r with
      | Ok data =>
          if bool_decide (data = []) then
            (Raise (NameError "_close_all"),
             mkWorld (socks w) (trace w ++ [EvRecv s (Ok data)]))
          else
            ((if bool_decide (s = src) then sendall dest data else sendall src data);;
             for_ready src dest rest)
              (mkWorld (socks w) (trace w ++ [EvRecv s (Ok data)]))
      | Raise e =>
          (Raise (if is_ConnectionResetError e then NameError "_close_all" else e),
           mkWorld (socks w) (trace w ++ [EvRecv s (Raise e)]))
      end).
  { cbn [for_ready]. unfold mbind at 1, M_bind at 1, try_except.
    unfold mbind at 1, M_bind at 1.
    rewrite (recv_in_pair s r w) by done.
    destruct r as [data|e].
    - unfold mret at 1, M_ret at 1.
      case_bool_decide; [by rewrite call_close_all_then | done].
    - destruct (is_ConnectionResetError e); [by rewrite call_close_all_then | done]. }
  rewrite Hstep. cbn [read_until_stop snd].
  destruct r as [[|b0 data]|e]; cbn [stops fst snd].
  - rewrite (bool_decide_eq_true_2 ([] = [])) by done. cbn [fst snd].
    split; [|by eexists].
    apply relayed_idle; [done|done|apply data_read_eof..].
  - rewrite (bool_decide_eq_false_2 (b0 :: data = [])) by done.
    destruct (relayed_one s (b0 :: data) w) as (w1&Hrun&Hrel); [done..|].
    rewrite (bind_ok _ _ _ _ _ Hrun).
    assert (Hw1 : writable w1 src = true ∧ writable w1 dest = true).
    { by destruct Hrel as (_&_&_&_&_&_&?&?). }
    destruct (IH w1 Hrest (proj1 Hw1) (proj2 Hw1)) as [Hrest_rel Hres].
    destruct (read_until_stop rest) as [l stopped]. cbn [fst snd] in *.
    split; [|done].
    by apply (relayed_app [(s, Ok (b0 :: data))] l w w1).
  - cbn [fst snd]. split; [|by eexists]. by apply relayed_idle.
Qed.

(** C8. In a relay between two distinct sockets that can be written to,
    where [select] reports only those two sockets: the relay reads
    exactly the buffers the network offers up to the first event that
    ends its loop (a socket reported in error, a read that fails, an end
    of stream), and it forwards every one of them.  The non-empty
    buffers read from the client socket are those offered on it, and the
    buffers delivered to the destination socket since the relay started
    are exactly those, each whole and in the order read; likewise from
    the destination socket to the client socket. *)
Theorem relay_forwards_in_order (net : list select_result) (w : world) :
  Forall (reports_pair src dest) net →
  writable w src = true →
  writable w dest = true →
  ∃ t, trace (_forward_connection net src dest w).2 = trace w ++ t ∧
    data_read src t = offered_in src (offered_before_stop net) ∧
    data_read dest t = offered_in dest (offered_before_stop net) ∧
    delivered (_forward_connection net src dest w).2 dest
      = delivered w dest ++ data_read src t ∧
    delivered (_forward_connection net src dest w).2 src
      = delivered w src ++ data_read dest t.
Proof.
  intros Hnet Hws Hwd.
  enough (relayed src dest (offered_before_stop net) w
            (_forward_connection net src dest w).2) as (t&H1&H2&H3&H4&H5&_).
  { exists t. by rewrite H2, H3. }
  revert w Hws Hwd. induction Hnet as [|round later Hround Hlater IH]; intros w Hws Hwd.
  - cbn [_forward_connection offered_before_stop].
    destruct (writable_inv _ _ Hws) as (a&Ha&Hca&Hpa).
    destruct (writable_inv _ _ Hwd) as (b&Hb&Hcb&Hpb).
    erewrite bind_ok by (by eapply select_open). by apply relayed_refl.
  - cbn [_forward_connection offered_before_stop].
    destruct (writable_inv _ _ Hws) as (a&Ha&Hca&Hpa).
    destruct (writable_inv _ _ Hwd) as (b&Hb&Hcb&Hpb).
    erewrite bind_ok by (by eapply select_open).
    erewrite bind_ok by reflexivity.
    set (w1 := mkWorld (socks w) (trace w ++ [EvSelect (ready round).*1 (err round)])).
    assert (Hw1 : relayed src dest [] w w1) by (by apply relayed_idle).
    case_bool_decide as Herr; cbn [negb].
    + destruct (for_ready_relays (ready round) w1 Hround Hws Hwd) as [Hrel Hres].
      destruct (read_until_stop (ready round)) as [l stopped]. cbn [fst snd] in *.
      unfold mbind, M_bind.
      destruct (for_ready src dest (ready round) w1) as [[f|e] w2]; cbn [fst snd] in *.
      * destruct stopped; [by destruct Hres|]. injection Hres as ->.
        assert (Hw2 : writable w2 src = true ∧ writable w2 dest = true).
        { by destruct Hrel as (_&_&_&_&_&_&?&?). }
        apply (relayed_app [] (l ++ offered_before_stop later) w w1); [done|].
        apply (relayed_app l (offered_before_stop later) w1 w2); [done|].
        apply IH; tauto.
      * destruct stopped; [|done].
        by apply (relayed_app [] l w w1).
    + by rewrite call_close_all_then.
Qed.

End Forwarding.

Lemma relay_forwards_in_order_witness :
  0%nat ≠ 1%nat ∧
  Forall (reports_pair 0 1) short_session ∧
  writable relay_pair 0 = true ∧ writable relay_pair 1 = true ∧
  ∃ t,
    trace (_forward_connection short_session 0 1 relay_pair).2 = trace relay_pair ++ t ∧
    data_read 0 t = offered_in 0 (offered_before_stop short_session) ∧
    data_read 1 t = offered_in 1 (offered_before_stop short_session) ∧
    delivered (_forward_connection short_session 0 1 relay_pair).2 1
      = delivered relay_pair 1 ++ data_read 0 t ∧
    delivered (_forward_connection short_session 0 1 relay_pair).2 0
      = delivered relay_pair 0 ++ data_read 1 t.
Proof.
  assert (Hne : 0%nat ≠ 1%nat) by lia.
  assert (Hnet : Forall (reports_pair 0 1) short_session).
  { unfold reports_pair, short_session.
    repeat (first [apply Forall_nil_2 | apply Forall_cons_2]; cbn); auto. }
  split; [exact Hne|]. split; [exact Hnet|]. split; [reflexivity|]. split; [reflexivity|].
  apply (relay_forwards_in_order 0 1 Hne short_session relay_pair Hnet); reflexivity.
Defined.

(** In [short_session] the end of the destination's stream ends the
    loop: the three buffers before it are forwarded, the client's last
    buffer is never read. *)
Example short_session_delivered :
  offered_in 0 (offered_before_stop short_session) = [[x47; x45; x54]] ∧
  offered_in 1 (offered_before_stop short_session) = [[x32; x30; x30]; [x4f; x4b]] ∧
  delivered (_forward_connection short_session 0 1 relay_pair).2 1 = [[x47; x45; x54]] ∧
  delivered (_forward_connection short_session 0 1 relay_pair).2 0
    = [[x32; x30; x30]; [x4f; x4b]].
Proof. repeat split. Qed.

Example relay_two_rounds :
  let w' := (_forward_connection
               [mkSelect [(0%nat, Ok [x47; x45; x54]); (1%nat, Ok [x32; x30; x30])] [];
                mkSelect [(1%nat, Ok [x4f; x4b])] []] 0 1 relay_pair).2 in
  delivered w' 1 = [[x47; x45; x54]] ∧
  delivered w' 0 = [[x32; x30; x30]; [x4f; x4b]].
Proof. split; reflexivity. Qed.

(** ** The listener loop *)

Create HintDb grows.

Lemma grows_ret {A} (a : A) : grows (mret a : M A).
Proof. intros w. cbn. lia. Qed.

Lemma grows_raise {A} (e : exn) : grows (raise e : M A).
Proof. intros w. cbn. lia. Qed.

Lemma grows_log (e : event) : grows (log e).
Proof. intros w. cbn. lia. Qed.

Lemma grows_bind {A B} (m : M A) (f : A → M B) :
  grows m → (∀ a, grows (f a)) → grows (m ≫= f).
Proof.
  intros Hm Hf w. unfold mbind, M_bind.
  specialize (Hm w). destruct (m w) as [[a|e] w1]; cbn [snd] in *; [|done].
  specialize (Hf a w1). lia.
Qed.

Lemma grows_try_except {A} (body handler : M A) (handles : exn → bool) :
  grows body → grows handler → grows (try_except body handles handler).
Proof.
  intros Hb Hh w. unfold try_except.
  specialize (Hb w). destruct (body w) as [[a|e] w1]; cbn [snd] in *; [done|].
  destruct (handles e); [|done]. specialize (Hh w1). lia.
Qed.

Lemma grows_get_sock (fd : nat) : grows (get_sock fd).
Proof. intros w. unfold get_sock. destruct (socks w !! fd); cbn; lia. Qed.

Lemma grows_put_sock (fd : nat) (s : sock) : grows (put_sock fd s).
Proof. intros w. cbn. rewrite length_insert. lia. Qed.

Lemma grows_lift {A} (r : result A) : grows (lift r).
Proof. destruct r; [apply grows_ret | apply grows_raise]. Qed.

Lemma grows_attr {A} (name : string) (o : option A) : grows (attr name o).
Proof. destruct o; [apply grows_ret | apply grows_raise]. Qed.

Lemma grows_socket_new : grows socket_new.
Proof. intros w. cbn. rewrite length_app. lia. Qed.

#[local] Hint Resolve grows_ret grows_raise grows_log grows_get_sock grows_put_sock
  grows_lift grows_attr grows_socket_new : grows.

Ltac grows_step :=
  lazymatch goal with
  | |- grows (_ ≫= _) => apply grows_bind; [auto with grows | intros]
  end.

Lemma grows_close (fd : nat) : grows (close fd).
Proof. unfold close. repeat grows_step. auto with grows. Qed.

Lemma grows_sendall (fd : nat) (data : list byte) : grows (sendall fd data).
Proof.
  unfold sendall. apply grows_bind; [auto with grows | intros s].
  destruct (closed s); [|destruct (peer_gone s)];
    repeat grows_step; auto with grows.
Qed.

Lemma grows_recv (fd : nat) (bufsize : Z) (r : result (list byte)) :
  grows (recv fd bufsize r).
Proof.
  unfold recv. apply grows_bind; [auto with grows | intros s].
  destruct (closed s); [auto with grows|].
  apply grows_bind; auto with grows.
Qed.

Lemma grows_connect (fd : nat) (ip : string) (port : Z) (d : option exn) :
  grows (connect fd ip port d).
Proof.
  unfold connect. apply grows_bind; [auto with grows | intros s].
  destruct (closed s); [auto with grows|].
  apply grows_bind; [auto with grows | intros _].
  destruct d; auto with grows.
Qed.

Lemma grows_accept (s : nat) (c : connection) : grows (accept s c).
Proof.
  unfold accept. apply grows_bind; [auto with grows | intros l].
  destruct (closed l); [auto with grows|].
  destruct (accept_raises c).
  - apply grows_bind; auto with grows.
  - intros w. cbn. rewrite length_app. lia.
Qed.

Lemma grows_build_reply (c : Z) (p a : option Z) : grows (_build_reply c p a).
Proof. apply grows_lift. Qed.

#[local] Hint Resolve grows_close grows_sendall grows_recv grows_connect grows_accept
  grows_build_reply : grows.

Lemma grows_reject_and_close (fd : nat) : grows (reject_and_close fd).
Proof.
  unfold reject_and_close, send.
  repeat grows_step. auto with grows.
Qed.

Lemma grows_process_connect_request (d : option exn) (req : ClientRequest) (fd : nat) :
  grows (_process_connect_request d req fd).
Proof.
  unfold _process_connect_request, send, settimeout, thread_start.
  apply grows_bind; [auto with grows | intros serverConn].
  apply grows_bind; [auto with grows | intros _].
  apply grows_bind.
  - apply grows_try_except.
    + repeat grows_step. auto with grows.
    + repeat grows_step. auto with grows.
  - intros _. repeat grows_step. auto with grows.
Qed.

Lemma grows_process_request (d : option exn) (data : list byte) (fd : nat) :
  grows (_process_request d data fd).
Proof.
  unfold _process_request.
  apply grows_bind; [auto with grows | intros req].
  destruct (isInvalid req); [apply grows_reject_and_close|].
  apply grows_bind; [auto with grows | intros c].
  destruct (c =? _);
    [apply grows_process_connect_request | apply grows_reject_and_close].
Qed.

Lemma grows_handle_connection (self : SocksProxy) (s : nat) (c : connection) :
  grows (handle_connection self s c).
Proof.
  unfold handle_connection.
  apply grows_bind; [auto with grows | intros conn].
  apply grows_bind; [auto with grows | intros data].
  apply grows_process_request.
Qed.

(** No call on the listening socket fails, yet the exception raised by
    the first client's dial ends the listener: the process exits with
    status 1 and the second client is never accepted. *)
Lemma listener_dies_with_one_client :
  Forall (λ c, accept_raises c = None) refused_then_bind ∧
  ∃ w', start proxy refused_then_bind empty_world = (Ok (Exited 1), w') ∧
    accepted (trace w') = [1%nat] ∧
    is_closed w' 0 = true ∧
    ¬ listener_keeps_accepting proxy refused_then_bind.
Proof.
  split; [by repeat constructor|].
  eexists. split; [reflexivity|]. split; [reflexivity|]. split; [reflexivity|].
  intros (w' & Hrun & _). discriminate Hrun.
Qed.

(** C5, as the code has it. One round of the loop on an open listening
    socket: when accepting, reading and handling the client raise
    nothing, the loop goes on to the next connection; when any of them
    raises, the loop's own handlers close the listening socket and exit
    the process — status 0 after KeyboardInterrupt, status 1 after any
    other exception — and no later connection is accepted. *)
Theorem listener_exits_on_any_exception (self : SocksProxy) (s : nat) (c : connection)
    (later : list connection) (w : world) :
  is_open w s = true →
  match handle_connection self s c w with
  | (Ok _, w1) =>
      accept_loop self s (c :: later) w = accept_loop self s later w1
  | (Raise e, w1) =>
      ∃ w2, accept_loop self s (c :: later) w
              = (Ok (Exited (if is_KeyboardInterrupt e then 0 else 1)), w2) ∧
        is_closed w2 s = true ∧
        trace w2 = trace w1 ++
                   (if is_KeyboardInterrupt e
                    then [EvClose s; EvPrint "Caught KeyboardInterrupt, exiting"; EvExit 0]
                    else [EvPrintExn e; EvClose s; EvExit 1])
  end.
Proof.
  intros Hopen.
  pose proof (grows_handle_connection self s c w) as Hgrow.
  cbn [accept_loop]. unfold mbind, M_bind, serve_one.
  destruct (handle_connection self s c w) as [[[]|e] w1]; cbn [snd] in Hgrow; [done|].
  assert (Hs : (s < length (socks w1))%nat).
  { unfold is_open in Hopen. destruct (socks w !! s) eqn:E; [|done].
    apply lookup_lt_Some in E. lia. }
  destruct (lookup_lt_is_Some_2 _ _ Hs) as [l Hl].
  destruct (is_KeyboardInterrupt e) eqn:Hki.
  - erewrite bind_ok by (by apply close_known).
    eexists. split; [reflexivity|]. split.
    + unfold is_closed. cbn [socks snd log mbind M_bind].
      by rewrite list_lookup_insert_eq.
    + cbn [trace]. by rewrite <- !app_assoc.
  - replace (is_Exception e) with true by (by destruct e).
    erewrite bind_ok by reflexivity.
    erewrite bind_ok by (by apply close_known).
    eexists. split; [reflexivity|]. split.
    + unfold is_closed. cbn [socks snd log mbind M_bind].
      by rewrite list_lookup_insert_eq.
    + cbn [trace socks]. by rewrite <- !app_assoc.
Qed.

Lemma listener_exits_on_any_exception_witness :
  is_open one_client 0 = true ∧
  match handle_connection proxy 0
          (mkConnection None false (Ok scenario1_request) (Some ConnectionRefusedError))
          one_client with
  | (Ok _, w1) =>
      accept_loop proxy 0
        (mkConnection None false (Ok scenario1_request) (Some ConnectionRefusedError)
         :: [mkConnection None false (Ok scenario4_request) None]) one_client
      = accept_loop proxy 0 [mkConnection None false (Ok scenario4_request) None] w1
  | (Raise e, w1) =>
      ∃ w2, accept_loop proxy 0
              (mkConnection None false (Ok scenario1_request) (Some ConnectionRefusedError)
               :: [mkConnection None false (Ok scenario4_request) None]) one_client
              = (Ok (Exited (if is_KeyboardInterrupt e then 0 else 1)), w2) ∧
        is_closed w2 0 = true ∧
        trace w2 = trace w1 ++
                   (if is_KeyboardInterrupt e
                    then [EvClose 0; EvPrint "Caught KeyboardInterrupt, exiting"; EvExit 0]
                    else [EvPrintExn e; EvClose 0; EvExit 1])
  end.
Proof.
  split; [reflexivity|].
  apply (listener_exits_on_any_exception proxy 0%nat
           (mkConnection None false (Ok scenario1_request) (Some ConnectionRefusedError))
           [mkConnection None false (Ok scenario4_request) None] one_client).
  reflexivity.
Defined.

(** The same round seen from [start]: the listener of the scenario exits
    with status 1 as soon as the first dial is refused. *)
Example start_exits_on_refused_dial :
  (start proxy refused_then_bind empty_world).1 = Ok (Exited 1).
Proof. reflexivity. Qed.

(** * Further properties of the code *)

(** ** Decoded fields *)

Lemma land_shiftl_low (a b k : Z) :
  0 ≤ k → 0 ≤ b < 2 ^ k → Z.land (Z.shiftl a k) b = 0.
Proof.
  intros Hk Hb. apply Z.bits_inj'. intros n Hn.
  rewrite Z.land_spec, Z.bits_0, Z.shiftl_spec by lia.
  destruct (Z.lt_ge_cases n k).
  - by rewrite Z.testbit_neg_r by lia.
  - rewrite andb_false_iff. right.
    destruct (Z.eq_dec b 0) as [->|]; [apply Z.bits_0|].
    apply Z.bits_above_log2; [lia|].
    assert (Z.log2 b < k) by (apply Z.log2_lt_pow2; lia). lia.
Qed.

Lemma lor_shiftl_add (a b k : Z) :
  0 ≤ k → 0 ≤ b < 2 ^ k → Z.lor (Z.shiftl a k) b = a * 2 ^ k + b.
Proof.
  intros Hk Hb.
  rewrite <- (Z.shiftl_mul_pow2 a k) by lia.
  rewrite <- Z.add_lor_land, land_shiftl_low by done. lia.
Qed.

Lemma word32_sum (l3 l2 l1 l0 : byte) :
  Z.lor (Z.shiftl (Struct.byte_val l3) 24)
    (Z.lor (Z.shiftl (Struct.byte_val l2) 16)
       (Z.lor (Z.shiftl (Struct.byte_val l1) 8) (Struct.byte_val l0)))
  = Struct.byte_val l3 * 2 ^ 24 + Struct.byte_val l2 * 2 ^ 16
    + Struct.byte_val l1 * 2 ^ 8 + Struct.byte_val l0.
Proof.
  pose proof (byte_val_range l3). pose proof (byte_val_range l2).
  pose proof (byte_val_range l1). pose proof (byte_val_range l0).
  rewrite (lor_shiftl_add _ (Struct.byte_val l0) 8) by lia.
  rewrite (lor_shiftl_add _ _ 16) by lia.
  rewrite (lor_shiftl_add _ _ 24) by lia. lia.
Qed.

Lemma octet_of_sum (x k : Z) :
  0 ≤ k → Z.land (Z.shiftr x k) 255 = (x / 2 ^ k) mod 256.
Proof.
  intros Hk. rewrite Z.shiftr_div_pow2 by done.
  change 255 with (Z.ones 8). by rewrite Z.land_ones.
Qed.

(** X1. For every buffer of nine bytes or more the decoder stores byte 1
    as the command, bytes 2-3 as the port in big-endian order, and bytes
    4-7 as the dotted-quad address, first byte first. *)
Theorem decode_fields (b0 b1 p1 p0 a3 a2 a1 a0 : byte) (tail : list byte) :
  tail ≠ [] →
  ∃ req, ClientRequest_init (b0 :: b1 :: p1 :: p0 :: a3 :: a2 :: a1 :: a0 :: tail) = Ok req ∧
    cd req = Some (Struct.byte_val b1) ∧
    dst_port req = Some (256 * Struct.byte_val p1 + Struct.byte_val p0) ∧
    dst_ip req = Some (decimal (Struct.byte_val a3) +:+ "." +:+
                       decimal (Struct.byte_val a2) +:+ "." +:+
                       decimal (Struct.byte_val a1) +:+ "." +:+
                       decimal (Struct.byte_val a0)).
Proof.
  intros Ht. eexists. split; [by apply decode_long|].
  unfold decoded. cbn [cd dst_port dst_ip].
  pose proof (byte_val_range p1). pose proof (byte_val_range p0).
  pose proof (byte_val_range a3). pose proof (byte_val_range a2).
  pose proof (byte_val_range a1). pose proof (byte_val_range a0).
  split; [done|]. split.
  { rewrite (lor_shiftl_add _ _ 8) by lia. f_equal. lia. }
  rewrite word32_sum.
  rewrite !octet_of_sum by lia.
  change 255 with (Z.ones 8). rewrite Z.land_ones by lia.
  change (2 ^ 24) with 16777216. change (2 ^ 16) with 65536. change (2 ^ 8) with 256.
  replace ((_ + Struct.byte_val a0) / 16777216 mod 256) with (Struct.byte_val a3)
    by (Z.div_mod_to_equations; lia).
  replace ((_ + Struct.byte_val a0) / 65536 mod 256) with (Struct.byte_val a2)
    by (Z.div_mod_to_equations; lia).
  replace ((_ + Struct.byte_val a0) / 256 mod 256) with (Struct.byte_val a1)
    by (Z.div_mod_to_equations; lia).
  replace ((_ + Struct.byte_val a0) mod 256) with (Struct.byte_val a0)
    by (Z.div_mod_to_equations; lia).
  done.
Qed.

Lemma decode_fields_witness :
  [x00] ≠ [] ∧
  ∃ req, ClientRequest_init [x04; x01; x01; xbb; xc0; xa8; x00; x0a; x00] = Ok req ∧
    cd req = Some (Struct.byte_val x01) ∧
    dst_port req = Some (256 * Struct.byte_val x01 + Struct.byte_val xbb) ∧
    dst_ip req = Some (decimal (Struct.byte_val xc0) +:+ "." +:+
                       decimal (Struct.byte_val xa8) +:+ "." +:+
                       decimal (Struct.byte_val x00) +:+ "." +:+
                       decimal (Struct.byte_val x0a)).
Proof.
  split; [discriminate|].
  apply (decode_fields x04 x01 x01 xbb xc0 xa8 x00 x0a [x00]). discriminate.
Defined.

Example decode_192_168_0_10_443 :
  ClientRequest_init [x04; x01; x01; xbb; xc0; xa8; x00; x0a; x00]
  = Ok (mkClientRequest false (Some 1) (Some 443) (Some "192.168.0.10"%string) (Some [])).
Proof. reflexivity. Qed.

(** ** The reply encoder on any arguments *)

(** X2. [_build_reply] returns a reply exactly when the code fits a
    byte, the port sixteen bits and the address thirty-two bits, and
    raises struct.error otherwise; a reply is eight bytes long, starts
    with the byte 0, and unpacks to version 0 and the three arguments. *)
Theorem build_reply_range (c P A : Z) (w : world) :
  (0 ≤ c < 2 ^ 8 ∧ 0 ≤ P < 2 ^ 16 ∧ 0 ≤ A < 2 ^ 32 →
   ∃ reply, _build_reply c (Some P) (Some A) w = (Ok reply, w) ∧
     length reply = 8%nat ∧
     reply !! 0%nat = Some x00 ∧
     Struct.unpack_BBHL reply = Ok (0, c, P, A))
  ∧
  (¬ (0 ≤ c < 2 ^ 8 ∧ 0 ≤ P < 2 ^ 16 ∧ 0 ≤ A < 2 ^ 32) →
   _build_reply c (Some P) (Some A) w = (Raise StructError, w)).
Proof.
  unfold _build_reply, Struct.pack_BBHL. cbn [default from_option id].
  split.
  - intros (Hc & HP & HA).
    rewrite (fits_true 8 c), (fits_true 16 P), (fits_true 32 A) by done.
    eexists. split; [reflexivity|]. split; [reflexivity|]. split; [reflexivity|].
    cbn [Struct.unpack_BBHL]. rewrite !byte_val_low_byte.
    rewrite join16, join32 by done.
    rewrite (Z.mod_small c) by (change (2 ^ 8) with 256 in Hc; lia).
    reflexivity.
  - intros Hout.
    destruct (Struct.fits 8 c) eqn:Ec; [|reflexivity].
    destruct (Struct.fits 16 P) eqn:EP; [|reflexivity].
    destruct (Struct.fits 32 A) eqn:EA; [|reflexivity].
    exfalso. apply Hout.
    unfold Struct.fits in *.
    apply andb_true_iff in Ec as [?%Z.leb_le ?%Z.ltb_lt].
    apply andb_true_iff in EP as [?%Z.leb_le ?%Z.ltb_lt].
    apply andb_true_iff in EA as [?%Z.leb_le ?%Z.ltb_lt].
    lia.
Qed.

Example build_reply_port_too_large :
  _build_reply CD_REQUEST_GRANTED (Some 65536) None empty_world
  = (Raise StructError, empty_world).
Proof. reflexivity. Qed.

(** ** Malformed requests *)

(** X3. A buffer that is too short, has a version byte other than 4, or
    has a command byte other than 1 and 2 is answered on a writable
    client connection by exactly two calls: the REJECTED reply
    00 5B 0000 00000000 is sent and the connection is closed; no socket
    is created and nothing is dialled, whatever the network would have
    answered. *)
Theorem malformed_request_rejected (dial : option exn) (data : list byte)
    (clientConn : nat) (w : world) :
  (length data < 9)%nat
  ∨ data !! 0%nat ≠ Some x04
  ∨ (data !! 1%nat ≠ Some x01 ∧ data !! 1%nat ≠ Some x02) →
  writable w clientConn = true →
  ∃ w', _process_request dial data clientConn w = (Ok tt, w') ∧
    trace w' = trace w ++ [EvSend clientConn [x00; x5b; x00; x00; x00; x00; x00; x00] None;
                           EvClose clientConn] ∧
    delivered w' clientConn
      = delivered w clientConn ++ [[x00; x5b; x00; x00; x00; x00; x00; x00]] ∧
    is_closed w' clientConn = true ∧
    length (socks w') = length (socks w).
Proof.
  intros Hbad Hw.
  destruct (decode_invalid_iff data) as (req & Hinit & Hiff).
  destruct (writable_inv _ _ Hw) as (s&Hs&Hc&Hp).
  pose proof (lookup_lt_Some _ _ _ Hs) as Hlt.
  unfold _process_request. rewrite Hinit.
  erewrite bind_ok by reflexivity.
  rewrite (proj2 Hiff Hbad).
  change ((reply ← _build_reply CD_REQUEST_REJECTED None None;
           send clientConn reply;; close clientConn) w)
    with (reject_and_close clientConn w).
  rewrite (reject_and_close_writable w clientConn s) by done.
  eexists. split; [reflexivity|]. split; [reflexivity|].
  split; [by rewrite delivered_insert, (delivered_known w clientConn s)|].
  split; [by rewrite is_closed_insert|].
  cbn [socks]. by rewrite length_insert.
Qed.

Lemma malformed_request_rejected_witness :
  ((length [x03; x01; x1f; x90; x7f; x00; x00; x01; x00] < 9)%nat
   ∨ [x03; x01; x1f; x90; x7f; x00; x00; x01; x00] !! 0%nat ≠ Some x04
   ∨ ([x03; x01; x1f; x90; x7f; x00; x00; x01; x00] !! 1%nat ≠ Some x01
      ∧ [x03; x01; x1f; x90; x7f; x00; x00; x01; x00] !! 1%nat ≠ Some x02)) ∧
  writable one_client 0 = true ∧
  ∃ w', _process_request None [x03; x01; x1f; x90; x7f; x00; x00; x01; x00] 0 one_client
          = (Ok tt, w') ∧
    trace w' = trace one_client
                 ++ [EvSend 0 [x00; x5b; x00; x00; x00; x00; x00; x00] None; EvClose 0] ∧
    delivered w' 0
      = delivered one_client 0 ++ [[x00; x5b; x00; x00; x00; x00; x00; x00]] ∧
    is_closed w' 0 = true ∧
    length (socks w') = length (socks one_client).
Proof.
  assert (Hbad : (length [x03; x01; x1f; x90; x7f; x00; x00; x01; x00] < 9)%nat
   ∨ [x03; x01; x1f; x90; x7f; x00; x00; x01; x00] !! 0%nat ≠ Some x04
   ∨ ([x03; x01; x1f; x90; x7f; x00; x00; x01; x00] !! 1%nat ≠ Some x01
      ∧ [x03; x01; x1f; x90; x7f; x00; x00; x01; x00] !! 1%nat ≠ Some x02)).
  { right. left. discriminate. }
  split; [exact Hbad|]. split; [reflexivity|].
  apply (malformed_request_rejected None _ 0%nat one_client Hbad). reflexivity.
Defined.

(** ** The method [_close_all] *)

Lemma is_closed_after_close (l : list sock) (t : list event) (s fd : nat) (x : sock) :
  l !! s = Some x →
  is_closed (mkWorld (<[s := mkSock true (peer_gone x) (outbox x)]> l) t) fd
  = is_closed (mkWorld l t) fd || bool_decide (fd = s).
Proof.
  intros Hx. unfold is_closed. cbn [socks].
  pose proof (lookup_lt_Some _ _ _ Hx).
  case_bool_decide as E.
  - subst. rewrite list_lookup_insert_eq by done. by rewrite orb_true_r.
  - rewrite list_lookup_insert_ne by done. by rewrite orb_false_r.
Qed.

Lemma delivered_after_close (l : list sock) (t : list event) (s fd : nat) (x : sock) :
  l !! s = Some x →
  delivered (mkWorld (<[s := mkSock true (peer_gone x) (outbox x)]> l) t) fd
  = delivered (mkWorld l t) fd.
Proof.
  intros Hx. unfold delivered. cbn [socks].
  pose proof (lookup_lt_Some _ _ _ Hx).
  destruct (decide (fd = s)) as [->|].
  - rewrite list_lookup_insert_eq by done. by rewrite Hx.
  - by rewrite list_lookup_insert_ne.
Qed.

(** X4. Called on sockets that exist, the method [_close_all] returns
    normally; afterwards each listed socket is closed, every other
    socket is as open or closed as before, what was delivered to any
    socket is unchanged, and the calls made are one [close] per listed
    socket, in list order.  A socket already closed, or listed twice, is
    closed again without error. *)
Theorem close_all_closes_listed (l : list nat) (w : world) :
  Forall (λ fd, (fd < length (socks w))%nat) l →
  ∃ w', _close_all l w = (Ok tt, w') ∧
    (∀ fd, is_closed w' fd = is_closed w fd || bool_decide (fd ∈ l)) ∧
    (∀ fd, delivered w' fd = delivered w fd) ∧
    trace w' = trace w ++ (EvClose <$> l) ∧
    length (socks w') = length (socks w).
Proof.
  revert w. induction l as [|s rest IH]; intros w Hl.
  - eexists. split; [reflexivity|]. repeat split.
    + intros fd. by rewrite orb_false_r.
    + by rewrite app_nil_r.
  - apply Forall_cons in Hl as [Hs Hrest].
    destruct (lookup_lt_is_Some_2 _ _ Hs) as [x Hx].
    cbn [_close_all]. erewrite bind_ok by (by apply close_known).
    set (w1 := mkWorld _ _).
    destruct (IH w1) as (w' & Hrun & Hcl & Hdel & Htr & Hlen).
    { subst w1. cbn [socks]. by rewrite length_insert. }
    exists w'. split; [done|]. repeat split.
    + intros fd. rewrite Hcl. subst w1.
      rewrite is_closed_after_close by done.
      destruct w as [sk tr]. cbn [socks trace].
      replace (is_closed (mkWorld sk (tr ++ [EvClose s])) fd)
        with (is_closed (mkWorld sk tr) fd) by done.
      rewrite <- orb_assoc. f_equal.
      destruct (decide (fd = s)) as [->|Hne].
      * rewrite bool_decide_eq_true_2 by done.
        symmetry. apply bool_decide_eq_true_2. apply elem_of_cons. by left.
      * rewrite (bool_decide_eq_false_2 (fd = s)) by done. cbn [orb].
        apply bool_decide_ext. rewrite elem_of_cons. tauto.
    + intros fd. rewrite Hdel. subst w1. by rewrite delivered_after_close.
    + rewrite Htr. subst w1. cbn [trace fmap list_fmap]. by rewrite <- app_assoc.
    + rewrite Hlen. subst w1. cbn [socks]. by rewrite length_insert.
Qed.

Lemma close_all_closes_listed_witness :
  Forall (λ fd, (fd < length (socks relay_pair))%nat) [0%nat; 1%nat] ∧
  ∃ w', _close_all [0%nat; 1%nat] relay_pair = (Ok tt, w') ∧
    (∀ fd, is_closed w' fd = is_closed relay_pair fd || bool_decide (fd ∈ [0%nat; 1%nat])) ∧
    (∀ fd, delivered w' fd = delivered relay_pair fd) ∧
    trace w' = trace relay_pair ++ (EvClose <$> [0%nat; 1%nat]) ∧
    length (socks w') = length (socks relay_pair).
Proof.
  assert (H : Forall (λ fd, (fd < length (socks relay_pair))%nat) [0%nat; 1%nat]).
  { repeat (first [apply Forall_nil_2 | apply Forall_cons_2]; cbn); lia. }
  split; [exact H|].
  apply (close_all_closes_listed [0%nat; 1%nat] relay_pair H).
Defined.

(** ** Which sockets a computation may change *)

Create HintDb frame.

Lemma untouched_weaken {A} (P Q : nat → Prop) (m : M A) :
  (∀ fd, P fd → Q fd) → untouched P m → untouched Q m.
Proof. intros HPQ Hm w fd Hfd HQ. apply Hm; [done|]. intros HP. by apply HQ, HPQ. Qed.

Lemma untouched_ret {A} (P : nat → Prop) (a : A) : untouched P (mret a : M A).
Proof. done. Qed.

Lemma untouched_raise {A} (P : nat → Prop) (e : exn) : untouched P (raise e : M A).
Proof. done. Qed.

Lemma untouched_log (P : nat → Prop) (e : event) : untouched P (log e).
Proof. done. Qed.

Lemma untouched_get_sock (P : nat → Prop) (fd : nat) : untouched P (get_sock fd).
Proof. intros w fd' _ _. unfold get_sock. by destruct (socks w !! fd). Qed.

Lemma untouched_lift {A} (P : nat → Prop) (r : result A) : untouched P (lift r).
Proof. by destruct r. Qed.

Lemma untouched_attr {A} (P : nat → Prop) (name : string) (o : option A) :
  untouched P (attr name o).
Proof. by destruct o. Qed.

Lemma untouched_put_sock (P : nat → Prop) (fd : nat) (s : sock) :
  P fd → untouched P (put_sock fd s).
Proof.
  intros HP w fd' _ Hn. cbn. apply list_lookup_insert_ne. by intros ->.
Qed.

Lemma untouched_bind {A B} (P : nat → Prop) (m : M A) (f : A → M B) :
  untouched P m → grows m → (∀ a, untouched P (f a)) → untouched P (m ≫= f).
Proof.
  intros Hm Hg Hf w fd Hfd HP. unfold mbind, M_bind.
  specialize (Hm w fd Hfd HP). specialize (Hg w).
  destruct (m w) as [[a|e] w1]; cbn [snd] in *; [|done].
  rewrite <- Hm. apply Hf; [lia|done].
Qed.

Lemma untouched_try_except {A} (P : nat → Prop) (body handler : M A) (handles : exn → bool) :
  untouched P body → grows body → untouched P handler →
  untouched P (try_except body handles handler).
Proof.
  intros Hb Hg Hh w fd Hfd HP. unfold try_except.
  specialize (Hb w fd Hfd HP). specialize (Hg w).
  destruct (body w) as [[a|e] w1]; cbn [snd] in *; [done|].
  destruct (handles e); [|done].
  rewrite <- Hb. apply Hh; [lia|done].
Qed.

(** A socket made by [socket.socket()] or returned by [accept] is new:
    what is done to it afterwards changes no existing socket. *)
Lemma untouched_socket_new {B} (P : nat → Prop) (f : nat → M B) :
  (∀ n, untouched (λ fd, P fd ∨ fd = n) (f n)) → untouched P (socket_new ≫= f).
Proof.
  intros Hf w fd Hfd HP. unfold mbind, M_bind, socket_new.
  rewrite Hf.
  - cbn [socks]. by rewrite lookup_app_l.
  - cbn [socks]. rewrite length_app. lia.
  - intros [?|?]; [done|lia].
Qed.

Lemma untouched_accept {B} (P : nat → Prop) (s : nat) (c : connection) (f : nat → M B) :
  (∀ n, untouched (λ fd, P fd ∨ fd = n) (f n)) → untouched P (accept s c ≫= f).
Proof.
  intros Hf w fd Hfd HP. unfold mbind at 1, M_bind at 1, accept.
  unfold mbind at 1, M_bind at 1, get_sock.
  destruct (socks w !! s) as [l|]; [|done].
  destruct (closed l); [done|].
  destruct (accept_raises c); [done|].
  rewrite Hf.
  - cbn [socks]. by rewrite lookup_app_l.
  - cbn [socks]. rewrite length_app. lia.
  - intros [?|?]; [done|lia].
Qed.

#[local] Hint Resolve untouched_ret untouched_raise untouched_log untouched_get_sock
  untouched_lift untouched_attr : frame.

Ltac untouched_step :=
  lazymatch goal with
  | |- untouched _ (_ ≫= _) =>
      apply untouched_bind; [auto with frame | auto with grows | intros]
  end.

Lemma untouched_sendall (P : nat → Prop) (fd : nat) (data : list byte) :
  P fd → untouched P (sendall fd data).
Proof.
  intros HP. unfold sendall. untouched_step.
  destruct (closed _); [|destruct (peer_gone _)]; repeat untouched_step; auto with frame.
  by apply untouched_put_sock.
Qed.

Lemma untouched_close (P : nat → Prop) (fd : nat) : P fd → untouched P (close fd).
Proof.
  intros HP. unfold close. repeat untouched_step; auto with frame.
  by apply untouched_put_sock.
Qed.

Lemma untouched_recv (P : nat → Prop) (fd : nat) (bufsize : Z) (r : result (list byte)) :
  untouched P (recv fd bufsize r).
Proof.
  unfold recv. untouched_step.
  destruct (closed _); [auto with frame|]. untouched_step. auto with frame.
Qed.

Lemma untouched_connect (P : nat → Prop) (fd : nat) (ip : string) (port : Z) (d : option exn) :
  untouched P (connect fd ip port d).
Proof.
  unfold connect. untouched_step.
  destruct (closed _); [auto with frame|]. untouched_step. destruct d; auto with frame.
Qed.

Lemma untouched_build_reply (P : nat → Prop) (c : Z) (p a : option Z) :
  untouched P (_build_reply c p a).
Proof. apply untouched_lift. Qed.

Lemma untouched_select (P : nat → Prop) (src dest : nat) : untouched P (select src dest).
Proof.
  unfold select. repeat untouched_step. destruct (_ || _); auto with frame.
Qed.

Lemma untouched_call_close_all (P : nat → Prop) (src dest : nat) :
  untouched P (call_close_all src dest).
Proof. intros w fd _ _. by rewrite call_close_all_unbound. Qed.

Lemma grows_select (src dest : nat) : grows (select src dest).
Proof. unfold select. repeat grows_step. destruct (_ || _); auto with grows. Qed.

Lemma grows_call_close_all (src dest : nat) : grows (call_close_all src dest).
Proof. intros w. by rewrite call_close_all_unbound. Qed.

#[local] Hint Resolve untouched_recv untouched_connect untouched_build_reply
  untouched_select untouched_call_close_all : frame.
#[local] Hint Resolve grows_select grows_call_close_all : grows.

Lemma grows_for_ready (src dest : nat) (rd : list (nat * result (list byte))) :
  grows (for_ready src dest rd).
Proof.
  induction rd as [|[s r] rest IH]; [apply grows_ret|].
  cbn [for_ready]. apply grows_bind.
  - apply grows_try_except; repeat grows_step; auto with grows.
  - intros [data|]; [|auto with grows].
    case_bool_decide; [repeat grows_step; auto with grows|].
    apply grows_bind; [|done]. case_bool_decide; auto with grows.
Qed.

Lemma untouched_for_ready (src dest : nat) (rd : list (nat * result (list byte))) :
  untouched (λ fd, fd = src ∨ fd = dest) (for_ready src dest rd).
Proof.
  induction rd as [|[s r] rest IH]; [apply untouched_ret|].
  cbn [for_ready]. apply untouched_bind.
  - apply untouched_try_except; [| |]; repeat untouched_step; auto with frame.
    repeat grows_step; auto with grows.
  - apply grows_try_except; repeat grows_step; auto with grows.
  - intros [data|]; [|auto with frame].
    case_bool_decide; [repeat untouched_step; auto with frame|].
    apply untouched_bind; [| |done].
    + case_bool_decide; apply untouched_sendall; auto.
    + case_bool_decide; auto with grows.
Qed.

Lemma untouched_forward_connection (net : list select_result) (src dest : nat) :
  untouched (λ fd, fd = src ∨ fd = dest) (_forward_connection net src dest).
Proof.
  induction net as [|round later IH]; cbn [_forward_connection].
  - repeat untouched_step; auto with frame.
  - untouched_step. untouched_step.
    destruct (negb _); [repeat untouched_step; auto with frame|].
    apply untouched_bind; [apply untouched_for_ready | apply grows_for_ready |].
    intros [|]; [done | auto with frame].
Qed.

(** X5. The relay changes no socket but its own two: every other
    existing socket is, after any stretch of network activity, exactly
    as it was — as open or closed, with the same buffers delivered. *)
Theorem relay_touches_only_its_pair (net : list select_result) (src dest : nat)
    (w : world) (fd : nat) :
  (fd < length (socks w))%nat →
  fd ≠ src → fd ≠ dest →
  socks (_forward_connection net src dest w).2 !! fd = socks w !! fd.
Proof.
  intros Hfd Hs Hd. apply untouched_forward_connection; [done|]. tauto.
Qed.

Lemma relay_touches_only_its_pair_witness :
  (2 < length (socks (mkWorld [fresh_sock; fresh_sock; mkSock false false [[x41]]] [])))%nat ∧
  2%nat ≠ 0%nat ∧ 2%nat ≠ 1%nat ∧
  socks (_forward_connection
           [mkSelect [(0%nat, Ok [x47; x45; x54])] []; mkSelect [(1%nat, Ok [])] []] 0 1
           (mkWorld [fresh_sock; fresh_sock; mkSock false false [[x41]]] [])).2 !! 2%nat
  = socks (mkWorld [fresh_sock; fresh_sock; mkSock false false [[x41]]] []) !! 2%nat.
Proof.
  split; [cbn; lia|]. split; [lia|]. split; [lia|].
  apply (relay_touches_only_its_pair
           [mkSelect [(0%nat, Ok [x47; x45; x54])] []; mkSelect [(1%nat, Ok [])] []] 0 1
           (mkWorld [fresh_sock; fresh_sock; mkSock false false [[x41]]] []) 2);
    [cbn; lia | lia | lia].
Defined.

Example relay_leaves_third_socket :
  let w := mkWorld [fresh_sock; fresh_sock; mkSock false false [[x41]]] [] in
  socks (_forward_connection
           [mkSelect [(0%nat, Ok [x47; x45; x54])] []; mkSelect [(1%nat, Ok [])] []] 0 1 w).2
    !! 2%nat
  = Some (mkSock false false [[x41]]).
Proof. reflexivity. Qed.

(** *** The request handler *)

Lemma untouched_reject_and_close (P : nat → Prop) (fd : nat) :
  P fd → untouched P (reject_and_close fd).
Proof.
  intros HP. unfold reject_and_close, send. untouched_step. apply untouched_bind.
  - by apply untouched_sendall.
  - auto with grows.
  - intros _. by apply untouched_close.
Qed.

Lemma untouched_process_connect_request (P : nat → Prop) (d : option exn)
    (req : ClientRequest) (fd : nat) :
  P fd → untouched P (_process_connect_request d req fd).
Proof.
  intros HP. unfold _process_connect_request.
  apply untouched_socket_new. intros serverConn.
  unfold settimeout, send, thread_start.
  untouched_step. apply untouched_bind.
  - apply untouched_try_except.
    + repeat untouched_step; auto with frame.
    + repeat grows_step; auto with grows.
    + apply untouched_bind; [apply untouched_close; auto | auto with grows |].
      intros _. untouched_step. apply untouched_bind.
      * apply untouched_sendall; auto.
      * auto with grows.
      * intros _. apply untouched_close; auto.
  - apply grows_try_except; repeat grows_step; auto with grows.
  - intros _. untouched_step. apply untouched_bind.
    + apply untouched_sendall; auto.
    + auto with grows.
    + intros _. auto with frame.
Qed.

Lemma untouched_process_request (dial : option exn) (data : list byte) (clientConn : nat) :
  untouched (λ fd, fd = clientConn) (_process_request dial data clientConn).
Proof.
  unfold _process_request. untouched_step.
  destruct (isInvalid _); [by apply untouched_reject_and_close|].
  untouched_step.
  destruct (_ =? _).
  - by apply untouched_process_connect_request.
  - by apply untouched_reject_and_close.
Qed.

Lemma untouched_handle_connection (self : SocksProxy) (s : nat) (c : connection) :
  untouched (λ _, False) (handle_connection self s c).
Proof.
  unfold handle_connection. apply untouched_accept. intros conn.
  untouched_step.
  eapply untouched_weaken; [|apply untouched_process_request].
  intros fd ->. by right.
Qed.

(** X6. Handling a request changes no existing socket but the client
    connection it was given: whatever the buffer holds and however the
    dial ends, every other socket already in the table is exactly as it
    was. *)
Theorem process_request_touches_only_client (dial : option exn) (data : list byte)
    (clientConn : nat) (w : world) (fd : nat) :
  (fd < length (socks w))%nat →
  fd ≠ clientConn →
  socks (_process_request dial data clientConn w).2 !! fd = socks w !! fd.
Proof. intros Hfd Hne. by apply untouched_process_request. Qed.

Lemma process_request_touches_only_client_witness :
  (0 < length (socks relay_pair))%nat ∧ 0%nat ≠ 1%nat ∧
  socks (_process_request (Some SocketTimeout) scenario2_request 1 relay_pair).2 !! 0%nat
  = socks relay_pair !! 0%nat.
Proof.
  split; [cbn; lia|]. split; [lia|].
  apply (process_request_touches_only_client (Some SocketTimeout) scenario2_request 1
           relay_pair 0); [cbn; lia | lia].
Defined.

(** X7. One round of the listener — accept, first read, handling —
    changes no socket that existed before it, the listening socket
    included, whether the round ends normally or by an exception. *)
Theorem handle_connection_touches_no_existing_socket (self : SocksProxy) (s : nat)
    (c : connection) (w : world) (fd : nat) :
  (fd < length (socks w))%nat →
  socks (handle_connection self s c w).2 !! fd = socks w !! fd.
Proof. intros Hfd. apply untouched_handle_connection; [done | by intros []]. Qed.

Lemma handle_connection_touches_no_existing_socket_witness :
  (0 < length (socks one_client))%nat ∧
  socks (handle_connection proxy 0
           (mkConnection None false (Ok scenario1_request) (Some ConnectionRefusedError))
           one_client).2 !! 0%nat
  = socks one_client !! 0%nat.
Proof.
  split; [cbn; lia|].
  apply (handle_connection_touches_no_existing_socket proxy 0
           (mkConnection None false (Ok scenario1_request) (Some ConnectionRefusedError))
           one_client 0).
  cbn; lia.
Defined.

(** ** Every way a request can end *)

Lemma request_cases (data : list byte) :
  malformed data ∨ valid_request x01 data ∨ valid_request x02 data.
Proof.
  unfold malformed, valid_request.
  destruct (decide (length data < 9)%nat); [by left; left|].
  destruct (decide (data !! 0%nat = Some x04)); [|by left; right; left].
  destruct (decide (data !! 1%nat = Some x01)); [right; left; repeat split; [lia|done..]|].
  destruct (decide (data !! 1%nat = Some x02)); [right; right; repeat split; [lia|done..]|].
  left. right. right. done.
Qed.

Lemma malformed_not_connect (data : list byte) :
  malformed data → ¬ valid_request x01 data.
Proof.
  intros [H|[H|[H1 H2]]] (Hlen & H0 & Hc); [lia|done|done].
Qed.

Lemma bind_not_connect (data : list byte) :
  valid_request x02 data → ¬ valid_request x01 data.
Proof. intros (_ & _ & H2) (_ & _ & H1). congruence. Qed.

Lemma process_request_malformed_run (dial : option exn) (data : list byte)
    (clientConn : nat) (w : world) :
  malformed data →
  _process_request dial data clientConn w = reject_and_close clientConn w.
Proof.
  intros Hbad.
  destruct (decode_invalid_iff data) as (req & Hinit & Hiff).
  unfold _process_request. rewrite Hinit.
  erewrite bind_ok by reflexivity.
  by rewrite (proj2 Hiff Hbad).
Qed.

Lemma process_request_bind_run (dial : option exn) (data : list byte)
    (clientConn : nat) (w : world) :
  valid_request x02 data →
  _process_request dial data clientConn w = reject_and_close clientConn w.
Proof.
  intros Hv.
  destruct (valid_request_inv _ _ Hv) as (p1&p0&a3&a2&a1&a0&tail&->&Ht).
  by rewrite process_request_long.
Qed.

Lemma process_request_connect_run (data : list byte) :
  valid_request x01 data →
  ∃ req ip port, dst_ip req = Some ip ∧ dst_port req = Some port ∧
    ∀ dial clientConn w,
      _process_request dial data clientConn w
      = _process_connect_request dial req clientConn w.
Proof.
  intros Hv.
  destruct (valid_request_inv _ _ Hv) as (p1&p0&a3&a2&a1&a0&tail&->&Ht).
  eexists (decoded x04 x01 p1 p0 a3 a2 a1 a0 tail), _, _.
  split; [reflexivity|]. split; [reflexivity|].
  intros dial clientConn w. by rewrite process_request_long.
Qed.

(** X8. Every way the handling of a request on a writable client
    connection can end.  It returns after delivering exactly one reply:
    GRANTED (00 5A 0000 00000000) for a valid CONNECT whose dial
    succeeded, with the client left open and one relay thread started;
    REJECTED (00 5B 0000 00000000) for every other buffer, with the
    client closed and no thread started.  Or it raises, and that happens
    only for a valid CONNECT whose dial failed: OSError (EBADF) after a
    timeout, the dial's own exception otherwise; no thread is started. *)
Theorem request_outcomes (dial : option exn) (data : list byte) (clientConn : nat)
    (w : world) :
  writable w clientConn = true →
  match _process_request dial data clientConn w with
  | (Ok _, w') =>
      (valid_request x01 data ∧ dial = None ∧
       delivered w' clientConn = delivered w clientConn ++ [GRANTED_reply_zero] ∧
       is_open w' clientConn = true ∧
       threads (trace w') = threads (trace w) ++ [(clientConn, length (socks w))])
      ∨
      (¬ valid_request x01 data ∧
       delivered w' clientConn = delivered w clientConn ++ [REJECTED_reply] ∧
       is_closed w' clientConn = true ∧
       threads (trace w') = threads (trace w))
  | (Raise e, w') =>
      valid_request x01 data ∧
      ∃ d, dial = Some d ∧
        e = (if is_socket_timeout d then OSError EBADF else d) ∧
        threads (trace w') = threads (trace w)
  end.
Proof.
  intros Hw.
  destruct (writable_inv _ _ Hw) as (s&Hs&Hc&Hp).
  pose proof (lookup_lt_Some _ _ _ Hs) as Hlt.
  assert (Hrej : ¬ valid_request x01 data →
    _process_request dial data clientConn w = reject_and_close clientConn w →
    match _process_request dial data clientConn w with
    | (Ok _, w') =>
        (valid_request x01 data ∧ dial = None ∧
         delivered w' clientConn = delivered w clientConn ++ [GRANTED_reply_zero] ∧
         is_open w' clientConn = true ∧
         threads (trace w') = threads (trace w) ++ [(clientConn, length (socks w))])
        ∨
        (¬ valid_request x01 data ∧
         delivered w' clientConn = delivered w clientConn ++ [REJECTED_reply] ∧
         is_closed w' clientConn = true ∧
         threads (trace w') = threads (trace w))
    | (Raise e, w') =>
        valid_request x01 data ∧
        ∃ d, dial = Some d ∧
          e = (if is_socket_timeout d then OSError EBADF else d) ∧
          threads (trace w') = threads (trace w)
    end).
  { intros Hnc ->. rewrite (reject_and_close_writable w clientConn s) by done.
    right. split; [done|].
    split; [by rewrite delivered_insert, (delivered_known w clientConn s)|].
    split; [by rewrite is_closed_insert|].
    cbn [trace]. by rewrite threads_app, app_nil_r. }
  destruct (request_cases data) as [Hbad|[Hcon|Hbind]].
  - apply Hrej; [by apply malformed_not_connect | by apply process_request_malformed_run].
  - destruct (process_request_connect_run data Hcon) as (req&ip&port&Hip&Hport&Hrun).
    rewrite Hrun. destruct dial as [d|].
    + destruct (is_socket_timeout d) eqn:Ht.
      * rewrite (connect_request_timeout_run req ip port clientConn w s) by done.
        split; [done|]. eexists. split; [done|]. rewrite Ht. split; [done|].
        cbn [trace]. by rewrite threads_app, app_nil_r.
      * rewrite (connect_request_failure_run req ip port clientConn w) by done.
        split; [done|]. eexists. split; [done|]. rewrite Ht. split; [done|].
        unfold dialled. cbn [trace]. by rewrite threads_app, app_nil_r.
    + rewrite (connect_request_granted_run req ip port clientConn w s) by done.
      left. split; [done|]. split; [done|].
      split.
      { rewrite delivered_insert by (rewrite length_app; cbn [length]; lia).
        by rewrite (delivered_known w clientConn s). }
      split.
      { unfold is_open. cbn [socks].
        by rewrite list_lookup_insert_eq by (rewrite length_app; cbn [length]; lia). }
      cbn [trace]. by rewrite threads_app.
  - apply Hrej; [by apply bind_not_connect | by apply process_request_bind_run].
Qed.

Lemma request_outcomes_witness :
  writable one_client 0 = true ∧
  match _process_request (Some SocketTimeout) scenario2_request 0 one_client with
  | (Ok _, w') =>
      (valid_request x01 scenario2_request ∧ Some SocketTimeout = None ∧
       delivered w' 0 = delivered one_client 0 ++ [GRANTED_reply_zero] ∧
       is_open w' 0 = true ∧
       threads (trace w') = threads (trace one_client) ++ [(0%nat, length (socks one_client))])
      ∨
      (¬ valid_request x01 scenario2_request ∧
       delivered w' 0 = delivered one_client 0 ++ [REJECTED_reply] ∧
       is_closed w' 0 = true ∧
       threads (trace w') = threads (trace one_client))
  | (Raise e, w') =>
      valid_request x01 scenario2_request ∧
      ∃ d, Some SocketTimeout = Some d ∧
        e = (if is_socket_timeout d then OSError EBADF else d) ∧
        threads (trace w') = threads (trace one_client)
  end.
Proof.
  split; [reflexivity|].
  apply (request_outcomes (Some SocketTimeout) scenario2_request 0%nat one_client).
  reflexivity.
Defined.

(** ** The relay while data flows *)

Section Flow.
Variables src dest : nat.
Hypothesis Hne : src ≠ dest.

Lemma forward_step (s : nat) (data : list byte) (w : world) :
  s = src ∨ s = dest →
  writable w src = true → writable w dest = true →
  ∃ w', (if bool_decide (s = src) then sendall dest data else sendall src data)
          (mkWorld (socks w) (trace w ++ [EvRecv s (Ok data)])) = (Ok tt, w') ∧
    delivered w' dest = delivered w dest ++ (if bool_decide (s = src) then [data] else []) ∧
    delivered w' src = delivered w src ++ (if bool_decide (s = dest) then [data] else []) ∧
    writable w' src = true ∧ writable w' dest = true.
Proof.
  intros Hs Hws Hwd.
  destruct (writable_inv _ _ Hws) as (a&Ha&Hca&Hpa).
  destruct (writable_inv _ _ Hwd) as (b&Hb&Hcb&Hpb).
  pose proof (lookup_lt_Some _ _ _ Ha). pose proof (lookup_lt_Some _ _ _ Hb).
  case_bool_decide as Hsrc.
  - subst s. rewrite (bool_decide_eq_false_2 (src = dest)) by done.
    eexists. split; [by apply (sendall_writable _ dest b)|].
    cbn [socks trace].
    rewrite delivered_insert, delivered_insert_ne by done.
    rewrite writable_insert_eq, writable_insert_ne by done.
    rewrite (delivered_known w dest b) by done.
    by rewrite app_nil_r.
  - destruct Hs as [->| ->]; [done|].
    rewrite (bool_decide_eq_true_2 (dest = dest)) by done.
    eexists. split; [by apply (sendall_writable _ src a)|].
    cbn [socks trace].
    rewrite delivered_insert, delivered_insert_ne by done.
    rewrite writable_insert_eq, writable_insert_ne by done.
    rewrite (delivered_known w src a) by done.
    by rewrite app_nil_r.
Qed.

Lemma for_ready_flowing (rd : list (nat * result (list byte))) (w : world) :
  Forall (λ p, (p.1 = src ∨ p.1 = dest) ∧ ∃ data, p.2 = Ok data ∧ data ≠ []) rd →
  writable w src = true → writable w dest = true →
  ∃ w', for_ready src dest rd w = (Ok Continue, w') ∧
    delivered w' dest = delivered w dest ++ offered_in src rd ∧
    delivered w' src = delivered w src ++ offered_in dest rd ∧
    writable w' src = true ∧ writable w' dest = true.
Proof.
  revert w. induction rd as [|[s r] rest IH]; intros w Hrd Hws Hwd.
  { exists w. by rewrite !app_nil_r. }
  apply Forall_cons in Hrd as [[Hs (data & Hr & Hdata)] Hrest].
  cbn [fst snd] in Hs, Hr. subst r.
  cbn [for_ready]. unfold mbind at 1, M_bind at 1, try_except.
  unfold mbind at 1, M_bind at 1.
  rewrite (recv_in_pair src dest s (Ok data) w) by done.
  unfold mret at 1, M_ret at 1.
  rewrite (bool_decide_eq_false_2 (data = [])) by done.
  destruct (forward_step s data w) as (w1 & Hrun & Hd1 & Hs1 & Hws1 & Hwd1); [done..|].
  erewrite bind_ok by exact Hrun.
  destruct (IH w1) as (w' & Hrest' & Hd & Hsrc & Hws' & Hwd'); [done..|].
  exists w'. split; [done|].
  rewrite Hd, Hsrc, Hd1, Hs1, !offered_in_cons.
  by rewrite !app_assoc.
Qed.

(** X9. While data flows — no socket in error, every read non-empty —
    the relay neither returns nor raises: after any number of such
    rounds it is back in [select], and what has been delivered to the
    destination is exactly what the network offered on the client
    socket, buffer by buffer in order, and the other way round. *)
Theorem relay_runs_while_data_flows (net : list select_result) (w : world) :
  Forall (flowing src dest) net →
  writable w src = true →
  writable w dest = true →
  ∃ w', _forward_connection net src dest w = (Ok RelayWaiting, w') ∧
    delivered w' dest = delivered w dest ++ offered src net ∧
    delivered w' src = delivered w src ++ offered dest net ∧
    writable w' src = true ∧ writable w' dest = true.
Proof.
  intros Hnet. revert w.
  induction Hnet as [|round later [Herr Hready] Hlater IH]; intros w Hws Hwd.
  - cbn [_forward_connection].
    destruct (writable_inv _ _ Hws) as (a&Ha&Hca&Hpa).
    destruct (writable_inv _ _ Hwd) as (b&Hb&Hcb&Hpb).
    erewrite bind_ok by (by eapply select_open).
    exists w. unfold offered. cbn. by rewrite !app_nil_r.
  - cbn [_forward_connection].
    destruct (writable_inv _ _ Hws) as (a&Ha&Hca&Hpa).
    destruct (writable_inv _ _ Hwd) as (b&Hb&Hcb&Hpb).
    erewrite bind_ok by (by eapply select_open).
    erewrite bind_ok by reflexivity.
    rewrite Herr. rewrite (bool_decide_eq_true_2 ([] = [])) by done. cbn [negb].
    set (w0 := mkWorld (socks w) (trace w ++ _)).
    destruct (for_ready_flowing (ready round) w0) as (w1 & Hrun & Hd1 & Hs1 & Hws1 & Hwd1);
      [done..|].
    erewrite bind_ok by exact Hrun.
    destruct (IH w1) as (w' & Hrest & Hd & Hsrc & Hws' & Hwd'); [done..|].
    exists w'. split; [done|].
    rewrite Hd, Hsrc, Hd1, Hs1. unfold offered. cbn [fmap list_fmap concat].
    by rewrite !app_assoc.
Qed.

End Flow.

Lemma relay_runs_while_data_flows_witness :
  0%nat ≠ 1%nat ∧
  Forall (flowing 0 1)
    [mkSelect [(0%nat, Ok [x47; x45; x54]); (1%nat, Ok [x32; x30; x30])] [];
     mkSelect [(1%nat, Ok [x4f; x4b])] []] ∧
  writable relay_pair 0 = true ∧ writable relay_pair 1 = true ∧
  ∃ w', _forward_connection
          [mkSelect [(0%nat, Ok [x47; x45; x54]); (1%nat, Ok [x32; x30; x30])] [];
           mkSelect [(1%nat, Ok [x4f; x4b])] []] 0 1 relay_pair = (Ok RelayWaiting, w') ∧
    delivered w' 1 = delivered relay_pair 1
      ++ offered 0 [mkSelect [(0%nat, Ok [x47; x45; x54]); (1%nat, Ok [x32; x30; x30])] [];
                    mkSelect [(1%nat, Ok [x4f; x4b])] []] ∧
    delivered w' 0 = delivered relay_pair 0
      ++ offered 1 [mkSelect [(0%nat, Ok [x47; x45; x54]); (1%nat, Ok [x32; x30; x30])] [];
                    mkSelect [(1%nat, Ok [x4f; x4b])] []] ∧
    writable w' 0 = true ∧ writable w' 1 = true.
Proof.
  assert (Hne : 0%nat ≠ 1%nat) by lia.
  assert (Hnet : Forall (flowing 0 1)
    [mkSelect [(0%nat, Ok [x47; x45; x54]); (1%nat, Ok [x32; x30; x30])] [];
     mkSelect [(1%nat, Ok [x4f; x4b])] []]).
  { unfold flowing.
    repeat (first [apply Forall_nil_2 | apply Forall_cons_2 | split]; cbn);
      try reflexivity; try (by left); try (by right); by eexists. }
  split; [exact Hne|]. split; [exact Hnet|]. split; [reflexivity|]. split; [reflexivity|].
  apply (relay_runs_while_data_flows 0 1 Hne _ relay_pair Hnet); reflexivity.
Defined.

(** X10. However the network behaves, a run of the relay ends blocked in
    [select] or by an exception; it never returns normally, and it
    leaves every socket as open or closed as it found it. *)
Theorem relay_never_returns_nor_closes (net : list select_result) (src dest : nat)
    (w : world) :
  ((_forward_connection net src dest w).1 = Ok RelayWaiting
   ∨ ∃ e, (_forward_connection net src dest w).1 = Raise e)
  ∧ ∀ fd, is_closed (_forward_connection net src dest w).2 fd = is_closed w fd.
Proof.
  split; [|intros fd; apply relay_never_closes].
  pose proof (relay_never_returns net src dest w) as Hn.
  destruct (_forward_connection net src dest w).1 as [[|]|e]; [done|by left|right; by eexists].
Qed.

(** ** The listener over many clients *)

Lemma accepted_app (t t' : list event) : accepted (t ++ t') = accepted t ++ accepted t'.
Proof. apply omap_app. Qed.

Lemma is_open_inv (w : world) (fd : nat) :
  is_open w fd = true → ∃ s, socks w !! fd = Some s ∧ closed s = false.
Proof.
  unfold is_open. destruct (socks w !! fd) as [s|]; [|done].
  intros H%negb_true_iff. by exists s.
Qed.

Lemma accept_run (s : nat) (c : connection) (w : world) (l : sock) :
  socks w !! s = Some l → closed l = false → accept_raises c = None →
  accept s c w
  = (Ok (length (socks w)),
     mkWorld (socks w ++ [mkSock false (client_gone c) []])
             (trace w ++ [EvAccept (Ok (length (socks w)))])).
Proof.
  intros Hl Hc Ha. unfold accept, get_sock, mbind, M_bind.
  by rewrite Hl, Hc, Ha.
Qed.

Lemma handle_connection_run (self : SocksProxy) (s : nat) (c : connection) (w : world)
    (data : list byte) :
  is_open w s = true → accept_raises c = None → first_read c = Ok data →
  handle_connection self s c w
  = _process_request (dial c) data (length (socks w)) (arrived w (client_gone c) data).
Proof.
  intros (l&Hl&Hc)%is_open_inv Ha Hr. unfold handle_connection.
  erewrite bind_ok by (by eapply accept_run).
  erewrite bind_ok; last first.
  { rewrite Hr. eapply recv_open.
    - cbn [socks]. by apply list_lookup_middle.
    - reflexivity. }
  unfold arrived. cbn [socks trace]. by rewrite <- app_assoc.
Qed.

Lemma quiet_round (self : SocksProxy) (s : nat) (c : connection) (w : world) :
  is_open w s = true → quiet c →
  ∃ w1 reply, handle_connection self s c w = (Ok tt, w1) ∧
    accepted (trace w1) = accepted (trace w) ++ [length (socks w)] ∧
    delivered w1 (length (socks w)) = [reply] ∧
    (reply = REJECTED_reply ∨ reply = GRANTED_reply_zero) ∧
    (length (socks w) < length (socks w1))%nat.
Proof.
  intros Hopen (Ha & Hgone & data & Hr & Hdial).
  rewrite (handle_connection_run self s c w data) by done. rewrite Hgone.
  set (n := length (socks w)). set (w0 := arrived w false data).
  assert (Hn : socks w0 !! n = Some fresh_sock) by (by apply list_lookup_middle).
  assert (Hlen : length (socks w0) = S n).
  { subst w0. unfold arrived. cbn [socks]. rewrite length_app. cbn [length]. lia. }
  assert (Hacc : accepted (trace w0) = accepted (trace w) ++ [n]).
  { subst w0. unfold arrived. cbn [trace]. by rewrite accepted_app. }
  assert (Hrej : _process_request (dial c) data n w0 = reject_and_close n w0 →
    ∃ w1 reply, _process_request (dial c) data n w0 = (Ok tt, w1) ∧
      accepted (trace w1) = accepted (trace w) ++ [n] ∧
      delivered w1 n = [reply] ∧
      (reply = REJECTED_reply ∨ reply = GRANTED_reply_zero) ∧
      (n < length (socks w1))%nat).
  { intros ->. rewrite (reject_and_close_writable w0 n fresh_sock) by done.
    eexists _, REJECTED_reply. split; [done|].
    cbn [trace socks]. rewrite accepted_app, Hacc, app_nil_r.
    rewrite delivered_insert by lia. rewrite length_insert.
    repeat split; [by left | lia]. }
  destruct (request_cases data) as [Hbad|[Hcon|Hbind]].
  - by apply Hrej, process_request_malformed_run.
  - destruct (process_request_connect_run data Hcon) as (req&ip&port&Hip&Hport&Hrun).
    rewrite Hrun, (Hdial Hcon).
    rewrite (connect_request_granted_run req ip port n w0 fresh_sock) by done.
    eexists _, GRANTED_reply_zero. split; [done|].
    cbn [trace socks]. rewrite accepted_app, Hacc, app_nil_r.
    rewrite delivered_insert by (rewrite length_app; lia).
    rewrite length_insert, length_app.
    repeat split; [by right | lia].
  - by apply Hrej, process_request_bind_run.
Qed.

Lemma accept_loop_quiet (self : SocksProxy) (s : nat) (net : list connection) (w : world) :
  is_open w s = true → Forall quiet net →
  ∃ w' clients, accept_loop self s net w = (Ok Accepting, w') ∧
    accepted (trace w') = accepted (trace w) ++ clients ∧
    length clients = length net ∧
    Forall (λ fd, delivered w' fd = [REJECTED_reply]
                  ∨ delivered w' fd = [GRANTED_reply_zero]) clients ∧
    (∀ fd, (fd < length (socks w))%nat → socks w' !! fd = socks w !! fd).
Proof.
  intros Hopen Hnet. revert w Hopen.
  induction Hnet as [|c later Hc Hlater IH]; intros w Hopen.
  { exists w, []. by rewrite app_nil_r. }
  destruct (quiet_round self s c w Hopen Hc) as (w1&reply&Hrun&Hacc&Hdel&Hreply&Hgrow).
  pose proof (untouched_handle_connection self s c w) as Hframe.
  rewrite Hrun in Hframe. cbn [snd] in Hframe.
  assert (Hopen1 : is_open w1 s = true).
  { destruct (is_open_inv _ _ Hopen) as (l&Hl&Hcl).
    unfold is_open. rewrite Hframe; [|by eapply lookup_lt_Some|by intros []].
    by rewrite Hl, Hcl. }
  destruct (IH w1 Hopen1) as (w'&clients&Hloop&Hacc'&Hlen&Hall&Hframe').
  exists w', (length (socks w) :: clients).
  split.
  { cbn [accept_loop]. unfold mbind, M_bind, serve_one. by rewrite Hrun. }
  split; [by rewrite Hacc', Hacc, <- app_assoc|].
  split; [cbn [length]; by rewrite Hlen|].
  split.
  - apply Forall_cons. split; [|done].
    unfold delivered in *. rewrite Hframe' by done.
    destruct Hreply as [->| ->]; [left|right]; done.
  - intros fd Hfd. rewrite Hframe' by lia. apply Hframe; [done|by intros []].
Qed.

(** X11. The listener keeps serving as long as no round raises.  Started
    on clients each of whom is accepted, delivers a first buffer, stays
    connected, and — when asking for a CONNECT — is given a successful
    dial, [start] accepts every one of them and ends back in [accept]
    with the listening socket open; each client has been sent exactly
    one reply, REJECTED or GRANTED, and no socket that existed before
    has been changed. *)
Theorem listener_serves_quiet_clients (self : SocksProxy) (net : list connection)
    (w : world) :
  Forall quiet net →
  ∃ w' clients, start self net w = (Ok Accepting, w') ∧
    accepted (trace w') = accepted (trace w) ++ clients ∧
    length clients = length net ∧
    Forall (λ fd, delivered w' fd = [REJECTED_reply]
                  ∨ delivered w' fd = [GRANTED_reply_zero]) clients ∧
    is_open w' (length (socks w)) = true ∧
    (∀ fd, (fd < length (socks w))%nat → socks w' !! fd = socks w !! fd).
Proof.
  intros Hnet. unfold start.
  erewrite bind_ok by reflexivity.
  erewrite bind_ok by reflexivity.
  erewrite bind_ok by reflexivity.
  cbn [socks trace].
  set (s := length (socks w)).
  set (w0 := mkWorld _ _).
  assert (Hs : socks w0 !! s = Some fresh_sock)
    by (subst w0; cbn [socks]; by apply list_lookup_middle).
  assert (Hopen : is_open w0 s = true) by (unfold is_open; by rewrite Hs).
  destruct (accept_loop_quiet self s net w0 Hopen Hnet)
    as (w'&clients&Hloop&Hacc&Hlen&Hall&Hframe).
  exists w', clients. split; [done|].
  split.
  { rewrite Hacc. subst w0. cbn [trace]. by rewrite !accepted_app, !app_nil_r. }
  split; [done|]. split; [done|].
  assert (Hlen0 : length (socks w0) = S s).
  { subst w0. cbn [socks]. rewrite length_app. cbn [length]. lia. }
  split.
  - unfold is_open. rewrite Hframe by lia. by rewrite Hs.
  - intros fd Hfd. rewrite Hframe by lia.
    subst w0. cbn [socks]. by rewrite lookup_app_l.
Qed.

Lemma listener_serves_quiet_clients_witness :
  Forall quiet
    [ mkConnection None false (Ok scenario4_request) None;
      mkConnection None false (Ok scenario1_request) None;
      mkConnection None false (Ok [x05; x01; x00]) (Some SocketTimeout) ] ∧
  ∃ w' clients,
    start proxy
      [ mkConnection None false (Ok scenario4_request) None;
        mkConnection None false (Ok scenario1_request) None;
        mkConnection None false (Ok [x05; x01; x00]) (Some SocketTimeout) ] empty_world
      = (Ok Accepting, w') ∧
    accepted (trace w') = accepted (trace empty_world) ++ clients ∧
    length clients
      = length [ mkConnection None false (Ok scenario4_request) None;
                 mkConnection None false (Ok scenario1_request) None;
                 mkConnection None false (Ok [x05; x01; x00]) (Some SocketTimeout) ] ∧
    Forall (λ fd, delivered w' fd = [REJECTED_reply]
                  ∨ delivered w' fd = [GRANTED_reply_zero]) clients ∧
    is_open w' (length (socks empty_world)) = true ∧
    (∀ fd, (fd < length (socks empty_world))%nat →
       socks w' !! fd = socks empty_world !! fd).
Proof.
  assert (H : Forall quiet
    [ mkConnection None false (Ok scenario4_request) None;
      mkConnection None false (Ok scenario1_request) None;
      mkConnection None false (Ok [x05; x01; x00]) (Some SocketTimeout) ]).
  { repeat (first [apply Forall_nil_2 | apply Forall_cons_2]);
      (split; [reflexivity|]; split; [reflexivity|]; eexists; split; [reflexivity|]).
    - reflexivity.
    - reflexivity.
    - intros (Hlen & _). cbn in Hlen. lia. }
  split; [exact H|].
  apply (listener_serves_quiet_clients proxy _ empty_world H).
Defined.

Example three_quiet_clients :
  let w' := (start proxy
               [ mkConnection None false (Ok scenario4_request) None;
                 mkConnection None false (Ok scenario1_request) None;
                 mkConnection None false (Ok [x05; x01; x00]) (Some SocketTimeout) ]
               empty_world).2 in
  accepted (trace w') = [1%nat; 2%nat; 4%nat] ∧
  delivered w' 1 = [REJECTED_reply] ∧
  delivered w' 2 = [GRANTED_reply_zero] ∧
  delivered w' 4 = [REJECTED_reply] ∧
  threads (trace w') = [(2%nat, 3%nat)].
Proof. repeat split. Qed.

Lemma accept_loop_raise (self : SocksProxy) (s : nat) (c : connection)
    (later : list connection) (w w1 : world) (e : exn) (l : sock) :
  handle_connection self s c w = (Raise e, w1) →
  socks w1 !! s = Some l →
  accept_loop self s (c :: later) w
  = (Ok (Exited (if is_KeyboardInterrupt e then 0 else 1)),
     mkWorld (<[s := mkSock true (peer_gone l) (outbox l)]> (socks w1))
             (trace w1 ++
              (if is_KeyboardInterrupt e
               then [EvClose s; EvPrint "Caught KeyboardInterrupt, exiting"; EvExit 0]
               else [EvPrintExn e; EvClose s; EvExit 1]))).
Proof.
  intros Hrun Hl. cbn [accept_loop]. unfold mbind at 1, M_bind at 1, serve_one.
  rewrite Hrun. destruct (is_KeyboardInterrupt e) eqn:Hki.
  - erewrite bind_ok by (by apply close_known).
    erewrite bind_ok by reflexivity. erewrite bind_ok by reflexivity.
    unfold mret, M_ret. cbn [socks trace]. by rewrite <- !app_assoc.
  - replace (is_Exception e) with true by (by destruct e).
    erewrite bind_ok by reflexivity.
    erewrite bind_ok by (by apply close_known).
    erewrite bind_ok by reflexivity.
    unfold mret, M_ret. cbn [socks trace]. by rewrite <- !app_assoc.
Qed.

(** X12. A CONNECT whose dial fails ends the listener.  For a valid
    CONNECT request from a connected client whose dial raises, the loop
    closes the listening socket and exits (status 1, or 0 when the dial
    was interrupted by KeyboardInterrupt) without accepting anyone else
    and without starting a relay.  After a timeout the client has been
    sent REJECTED and its connection is closed; after any other failure
    the client has been sent nothing and its connection is left open. *)
Theorem failed_dial_ends_listener (self : SocksProxy) (s : nat) (c : connection)
    (later : list connection) (w : world) (data : list byte) (d : exn) :
  is_open w s = true →
  accept_raises c = None →
  client_gone c = false →
  first_read c = Ok data →
  valid_request x01 data →
  dial c = Some d →
  ∃ w', accept_loop self s (c :: later) w
          = (Ok (Exited (if is_KeyboardInterrupt d then 0 else 1)), w') ∧
    is_closed w' s = true ∧
    accepted (trace w') = accepted (trace w) ++ [length (socks w)] ∧
    threads (trace w') = threads (trace w) ∧
    delivered w' (length (socks w))
      = (if is_socket_timeout d then [REJECTED_reply] else []) ∧
    is_closed w' (length (socks w)) = is_socket_timeout d.
Proof.
  intros Hopen Ha Hgone Hr Hv Hd.
  destruct (is_open_inv _ _ Hopen) as (l&Hl&Hcl).
  pose proof (lookup_lt_Some _ _ _ Hl) as Hs.
  pose proof (handle_connection_run self s c w data Hopen Ha Hr) as Hrun.
  rewrite Hgone, Hd in Hrun.
  destruct (process_request_connect_run data Hv) as (req&ip&port&Hip&Hport&Hcon).
  rewrite Hcon in Hrun.
  set (n := length (socks w)) in *. set (w0 := arrived w false data) in *.
  assert (Hn : socks w0 !! n = Some fresh_sock) by (by apply list_lookup_middle).
  assert (Hlen : length (socks w0) = S n).
  { subst w0. unfold arrived. cbn [socks]. rewrite length_app. cbn [length]. lia. }
  assert (Hs0 : socks w0 !! s = Some l).
  { subst w0. unfold arrived. cbn [socks]. by rewrite lookup_app_l. }
  assert (Hacc : accepted (trace w0) = accepted (trace w) ++ [n]).
  { subst w0. unfold arrived. cbn [trace]. by rewrite accepted_app. }
  assert (Hthr : threads (trace w0) = threads (trace w)).
  { subst w0. unfold arrived. cbn [trace]. by rewrite threads_app, app_nil_r. }
  destruct (is_socket_timeout d) eqn:Ht.
  - rewrite (connect_request_timeout_run req ip port n w0 fresh_sock) in Hrun by done.
    erewrite accept_loop_raise; [|exact Hrun|]; last first.
    { cbn [socks]. rewrite !list_lookup_insert_ne by lia. by rewrite lookup_app_l by lia. }
    cbn [is_KeyboardInterrupt].
    assert (Hki : is_KeyboardInterrupt d = false) by (by destruct d).
    rewrite Hki.
    eexists. split; [reflexivity|].
    assert (Hlen2 : (s < length (<[n := mkSock true false ([] ++ [REJECTED_reply])]>
                                   (<[length (socks w0) := mkSock true false []]>
                                      (socks w0 ++ [fresh_sock]))))%nat).
    { rewrite !length_insert, length_app. lia. }
    split; [by rewrite is_closed_insert|].
    cbn [trace]. rewrite !accepted_app, !threads_app, Hacc, Hthr.
    split; [by rewrite !app_nil_r|]. split; [by rewrite !app_nil_r|].
    unfold delivered, is_closed. cbn [socks].
    rewrite list_lookup_insert_ne by lia.
    rewrite list_lookup_insert_eq; [done|].
    rewrite length_insert, length_app. lia.
  - rewrite (connect_request_failure_run req ip port n w0) in Hrun by done.
    erewrite accept_loop_raise; [|exact Hrun|]; last first.
    { unfold dialled. cbn [socks]. by rewrite lookup_app_l by lia. }
    eexists. split; [reflexivity|].
    assert (Hlen2 : (s < length (socks (dialled w0 ip port (Some d))))%nat).
    { unfold dialled. cbn [socks]. rewrite length_app. lia. }
    split; [by rewrite is_closed_insert|].
    assert (Haccd : accepted (trace (dialled w0 ip port (Some d)))
                    = accepted (trace w) ++ [n]).
    { unfold dialled. cbn [trace]. by rewrite accepted_app, Hacc, app_nil_r. }
    assert (Hthrd : threads (trace (dialled w0 ip port (Some d))) = threads (trace w)).
    { unfold dialled. cbn [trace]. by rewrite threads_app, Hthr, app_nil_r. }
    cbn [trace]. rewrite accepted_app, threads_app, Haccd, Hthrd.
    split; [by destruct (is_KeyboardInterrupt d); rewrite app_nil_r|].
    split; [by destruct (is_KeyboardInterrupt d); rewrite app_nil_r|].
    unfold delivered, is_closed, dialled. cbn [socks].
    rewrite list_lookup_insert_ne by lia.
    by rewrite lookup_app_l, Hn by lia.
Qed.

Lemma failed_dial_ends_listener_witness :
  is_open one_client 0 = true ∧
  accept_raises (mkConnection None false (Ok scenario1_request) (Some ConnectionRefusedError))
    = None ∧
  client_gone (mkConnection None false (Ok scenario1_request) (Some ConnectionRefusedError))
    = false ∧
  first_read (mkConnection None false (Ok scenario1_request) (Some ConnectionRefusedError))
    = Ok scenario1_request ∧
  valid_request x01 scenario1_request ∧
  dial (mkConnection None false (Ok scenario1_request) (Some ConnectionRefusedError))
    = Some ConnectionRefusedError ∧
  ∃ w', accept_loop proxy 0
          (mkConnection None false (Ok scenario1_request) (Some ConnectionRefusedError)
           :: [mkConnection None false (Ok scenario4_request) None]) one_client
          = (Ok (Exited (if is_KeyboardInterrupt ConnectionRefusedError then 0 else 1)), w') ∧
    is_closed w' 0 = true ∧
    accepted (trace w') = accepted (trace one_client) ++ [length (socks one_client)] ∧
    threads (trace w') = threads (trace one_client) ∧
    delivered w' (length (socks one_client))
      = (if is_socket_timeout ConnectionRefusedError then [REJECTED_reply] else []) ∧
    is_closed w' (length (socks one_client)) = is_socket_timeout ConnectionRefusedError.
Proof.
  split; [reflexivity|]. split; [reflexivity|]. split; [reflexivity|].
  split; [reflexivity|]. split; [exact scenario1_valid|]. split; [reflexivity|].
  apply (failed_dial_ends_listener proxy 0
           (mkConnection None false (Ok scenario1_request) (Some ConnectionRefusedError))
           [mkConnection None false (Ok scenario4_request) None]
           one_client scenario1_request ConnectionRefusedError);
    [reflexivity | reflexivity | reflexivity | reflexivity | exact scenario1_valid | reflexivity].
Defined.

(** After a kernel-level timeout (errno ETIMEDOUT) the client has been
    sent REJECTED and is closed when the listener exits. *)
Example kernel_timeout_ends_listener :
  let w' := (accept_loop proxy 0
               [mkConnection None false (Ok scenario1_request) (Some (OSError 110))]
               one_client).2 in
  (accept_loop proxy 0
     [mkConnection None false (Ok scenario1_request) (Some (OSError 110))] one_client).1
    = Ok (Exited 1) ∧
  delivered w' 1 = [REJECTED_reply] ∧ is_closed w' 1 = true ∧ is_closed w' 0 = true.
Proof. repeat split. Qed.
